(** * chemfiles: format registry, topology and TRR file adapter

    A shallow embedding of [src/Topology.cpp], [src/FormatFactory.cpp] and
    [src/files/TRRFile.cpp], and the properties of these functions.

    Conventions of the embedding.
    - [size_t] is a 64-bit and [unsigned] a 32-bit unsigned integer (the LP64
      data model); both are carried by [N], and every arithmetic operation
      of the source on them is followed by its reduction modulo the width.
    - A [std::string] is a [string]; a [std::vector] is a [list].
    - A C++ function that can throw returns an [outcome]; a method that
      mutates its object is a state transformer [M S A] whose final state
      is the state of the object when the call returns or throws.
    - Loops whose termination depends on a wrapping counter take a [fuel]:
      [Diverge] is the answer of a run that needs more steps than [fuel].
    - Memory is unbounded: allocation never fails.  The checks that the
      containers make on their arguments are part of the embedding: a
      [std::vector] asked to hold more than its [max_size()] elements throws
      [std::length_error]. *)

From Stdlib Require Import NArith ZArith Lia String Ascii List DecimalString.
From stdpp Require Import base list strings numbers.

Open Scope string_scope.
Open Scope list_scope.

(** ** Exceptions ([chemfiles/Error.hpp]) and outcomes *)

(** The exception classes of [Error.hpp]; [Error] is the base class, thrown
    as such by the topology.  [std_out_of_range] is what [std::vector::at]
    throws, [std_length_error] what a [std::vector] throws when it is asked
    to grow beyond its [max_size()]. *)
Inductive exception : Type :=
| Error (what : string)
| FileError (what : string)
| MemoryError (what : string)
| FormatError (what : string)
| PluginError (what : string)
| std_out_of_range
| std_length_error.

Inductive outcome (A : Type) : Type :=
| Ret (a : A)
| Throw (e : exception)
| Undefined
| Diverge.
Arguments Ret {A} a.
Arguments Throw {A} e.
Arguments Undefined {A}.
Arguments Diverge {A}.

Definition outcome_bind {A B} (f : A -> outcome B) (m : outcome A) : outcome B :=
  match m with
  | Ret a => f a
  | Throw e => Throw e
  | Undefined => Undefined
  | Diverge => Diverge
  end.

#[global] Instance outcome_mret : MRet outcome := @Ret.
#[global] Instance outcome_mbind : MBind outcome := @outcome_bind.

(** A method of an object of type [S]: it returns or throws, and leaves the
    object in some state either way. *)
Definition M (S A : Type) : Type := S -> outcome A * S.

Definition ret {S A} (a : A) : M S A := fun s => (Ret a, s).
Definition bind {S A B} (m : M S A) (k : A -> M S B) : M S B :=
  fun s =>
    match m s with
    | (Ret a, s') => k a s'
    | (Throw e, s') => (Throw e, s')
    | (Undefined, s') => (Undefined, s')
    | (Diverge, s') => (Diverge, s')
    end.
Definition throw {S A} (e : exception) : M S A := fun s => (Throw e, s).
Definition undefined {S A} : M S A := fun s => (Undefined, s).
Definition get {S} : M S S := fun s => (Ret s, s).
Definition put {S} (s : S) : M S unit := fun _ => (Ret tt, s).
Definition modify {S} (f : S -> S) : M S unit := fun s => (Ret tt, f s).

Declare Scope method_scope.
Delimit Scope method_scope with method.
Notation "'let!' x ':=' m 'in' k" := (bind m (fun x => k))
  (at level 10, x name, m at level 100, k at level 200) : method_scope.
Notation "m ';;;' k" := (bind m (fun _ => k))
  (at level 100, k at level 200, right associativity) : method_scope.

(** A range-based [for] over a snapshot [l]. *)
Fixpoint for_each {S B} (l : list B) (body : B -> M S unit) : M S unit :=
  match l with
  | [] => ret tt
  | x :: rest => bind (body x) (fun _ => for_each rest body)
  end.

(** [std::to_string] on an unsigned and on a signed integer. *)
Definition to_string (n : N) : string := NilZero.string_of_uint (N.to_uint n).
Definition to_string_int (z : Z) : string := NilZero.string_of_int (Z.to_int z).

(** Lift a computation that does not touch the object. *)
Definition run {S A} (m : outcome A) : M S A := fun s => (m, s).

(** The content of a vector cut or padded with [x] to [n] elements. *)
Definition resized {A} (v : list A) (n : N) (x : A) : list A :=
  take (N.to_nat n) v ++ replicate (N.to_nat n - length v) x.

(** [std::vector::resize(n, x)] on a vector whose [max_size()] is
    [max_size]: beyond it the call throws [std::length_error] and the vector
    is as it was, otherwise the vector is cut or padded to [n] elements. *)
Definition vector_resize {A} (max_size : N) (v : list A) (n : N) (x : A)
    : outcome (list A) :=
  if (max_size <? n)%N then Throw std_length_error else Ret (resized v n x).

(** [std::vector::emplace_back(x)]: a vector that already holds [max_size()]
    elements throws [std::length_error]. *)
Definition vector_emplace_back {A} (max_size : N) (v : list A) (x : A)
    : outcome (list A) :=
  if (max_size <=? N.of_nat (length v))%N then Throw std_length_error
  else Ret (v ++ [x]).

(** [v.erase(v.begin() + idx)], for [idx] inside the vector. *)
Definition vector_erase {A} (v : list A) (idx : N) : list A :=
  take (N.to_nat idx) v ++ drop (S (N.to_nat idx)) v.

(** ** Topology ([src/Topology.cpp]) *)

Module Topology.

(** A bond is a [std::array<size_t, 2>]: [bond[0]] is [fst], [bond[1]] is
    [snd]. *)
Definition Bond : Type := (N * N)%type.

(** Modelled from the spec: the class Connectivity ([Connectivity.hpp] is not
    under src/).  "Connectivity: the bond set plus angles/dihedrals derived
    from it"; "Bond: unordered pair of atom indices".  The bond set is kept
    as the sequence its iteration yields; [remove_bond i j] takes the bond
    between [i] and [j] out of the set. *)
Record Connectivity : Type := { bonds_ : list Bond }.

Definition same_bond (b : Bond) (i j : N) : bool :=
  ((b.1 =? i)%N && (b.2 =? j)%N) || ((b.1 =? j)%N && (b.2 =? i)%N).

Definition Connectivity_bonds (c : Connectivity) : list Bond := bonds_ c.

Definition remove_bond (i j : N) (c : Connectivity) : Connectivity :=
  {| bonds_ := List.filter (fun b => negb (same_bond b i j)) (bonds_ c) |}.

Section WithAtom.
(** The class Atom is declared in [Atom.hpp], which is not under src/: the
    type and the value of [Atom(Atom::UNDEFINED)] are parameters, and so is
    [max_size], the [max_size()] of a [std::vector<Atom>], which depends on
    the size of an Atom. *)
Context {Atom : Type} (Atom_UNDEFINED : Atom) (max_size : N).

Record Topology : Type := {
  atoms_ : list Atom;
  connect_ : Connectivity
}.

Definition set_atoms (f : list Atom -> list Atom) (t : Topology) : Topology :=
  {| atoms_ := f (atoms_ t); connect_ := connect_ t |}.
Definition set_connect (f : Connectivity -> Connectivity) (t : Topology) : Topology :=
  {| atoms_ := atoms_ t; connect_ := f (connect_ t) |}.

(** [Topology::bonds() const]: a vector copied from the bond set. *)
Definition bonds (t : Topology) : list Bond := Connectivity_bonds (connect_ t).

Definition resize_message (natoms : N) (bond : Bond) : string :=
  ("Can not resize the topology to " ++ to_string natoms ++
   " as there is a bond between atoms " ++ to_string bond.1 ++
   "-" ++ to_string bond.2 ++ ".")%string.

(** [void Topology::resize(size_t natoms)] *)
Definition resize (natoms : N) : M Topology unit :=
  (let! t := get in
   for_each (bonds t) (fun bond =>
     if (natoms <=? bond.1)%N || (natoms <=? bond.2)%N
     then throw (Error (resize_message natoms bond))
     else ret tt) ;;;
   let! t := get in
   let! atoms := run (vector_resize max_size (atoms_ t) natoms Atom_UNDEFINED) in
   modify (set_atoms (fun _ => atoms)))%method.

(** [void Topology::append(Atom atom)] *)
Definition append (atom : Atom) : M Topology unit :=
  (let! t := get in
   let! atoms := run (vector_emplace_back max_size (atoms_ t) atom) in
   modify (set_atoms (fun _ => atoms)))%method.

(** [void Topology::remove(size_t idx)].  Erasing at an iterator that is
    not inside the vector is undefined behaviour.  The loop runs over a
    copy of the bond set taken after the atom is erased. *)
Definition remove (idx : N) : M Topology unit :=
  (let! t := get in
   if decide (N.to_nat idx < length (atoms_ t))%nat then
     modify (set_atoms (fun atoms => vector_erase atoms idx)) ;;;
     let! t1 := get in
     let bonds := Connectivity_bonds (connect_ t1) in
     for_each bonds (fun bond =>
       if (bond.1 =? idx)%N || (bond.2 =? idx)%N
       then modify (set_connect (remove_bond bond.1 bond.2))
       else ret tt)
   else undefined)%method.
End WithAtom.
Arguments Topology Atom : clear implicits.

End Topology.

(** ** The TRR file adapter ([src/files/TRRFile.cpp]) *)

Module TRRFile.

(** [File::Mode] *)
Inductive Mode : Type := READ | WRITE | APPEND.

(** The enumerators of the status codes of the xdrfile library that
    [check_trr_error] names in its [case] labels. *)
Inductive exdr : Type :=
| exdrOK | exdrHEADER | exdrSTRING | exdrDOUBLE | exdrINT | exdrFLOAT
| exdrUINT | exdr3DX | exdrCLOSE | exdrMAGIC | exdrNOMEM | exdrENDOFFILE
| exdrFILENOTFOUND | exdrNR.

(** What [read_trr_header] writes through its three output pointers. *)
Record header : Type := {
  natoms_ : Z;          (* int *)
  nframes_ : N;         (* unsigned long *)
  offsets_ : list Z     (* int64_t*, [nframes_] entries *)
}.

Section WithCodec.
(** The xdrfile library is not under src/; what the adapter uses of it is a
    parameter: the [int] value of each enumerator, the table
    [exdr_message], the type of the native handle, and the two calls the
    constructor makes, as functions of the path. *)
Context (code : exdr -> Z) (exdr_message : Z -> string) {XDRFILE : Type}.
Context (read_trr_header : string -> header -> Z * header).
Context (xdrfile_open : string -> string -> option XDRFILE).

Record TRRFile : Type := {
  path : string;
  mode : Mode;
  handle_ : option XDRFILE;
  members : header
}.

(** The labels of the [case] group that throws. *)
Definition error_labels : list exdr :=
  [exdrHEADER; exdrSTRING; exdrDOUBLE; exdrINT; exdrFLOAT; exdrUINT; exdr3DX;
   exdrCLOSE; exdrMAGIC; exdrNOMEM; exdrENDOFFILE; exdrFILENOTFOUND; exdrNR].

Definition file_error_calling (function : string) (status : Z) : exception :=
  FileError ("error while calling " ++ function ++ " in the TRR library: "
             ++ exdr_message status)%string.
Definition file_error_unknown (status : Z) : exception :=
  FileError ("unknown status code from TRR library: " ++ to_string_int status)%string.
Definition file_error_open (path : string) : exception :=
  FileError ("could not open the file at " ++ path)%string.

(** [void check_trr_error(int status, const std::string& function)] *)
Definition check_trr_error (status : Z) (function : string) : outcome unit :=
  if existsb (fun label => (status =? code label)%Z) error_labels then
    Throw (file_error_calling function status)
  else if (status =? code exdrOK)%Z then
    Ret tt
  else
    Throw (file_error_unknown status).

(** The text [STRING(x)] that [CHECK] passes for the call in the
    constructor. *)
Definition read_trr_header_call : string :=
  "read_trr_header(this->path().c_str(), &natoms_, &nframes_, &offsets_)".

(** [TRRFile::TRRFile(std::string path, File::Mode mode)]; [init] is the
    value of the three members before the body runs. *)
Definition TRRFile_new (path : string) (mode : Mode) (init : header) : outcome TRRFile :=
  '(openmode, hdr) ←
    match mode with
    | READ =>
        let '(status, hdr) := read_trr_header path init in
        _ ← check_trr_error status read_trr_header_call;
        Ret ("r", hdr)
    | WRITE => Ret ("w", init)
    | APPEND =>
        let '(_, hdr) := read_trr_header path init in
        Ret ("a", hdr)
    end;
  match xdrfile_open path openmode with
  | Some handle => Ret {| path := path; mode := mode; handle_ := Some handle; members := hdr |}
  | None => Throw (file_error_open path)
  end.

(** [unsigned long TRRFile::nframes() const] *)
Definition nframes (f : TRRFile) : N := nframes_ (members f).

(** [int64_t TRRFile::offset(size_t step) const]: [offsets_[step]], a read
    through a raw pointer; [None] is a read outside the table. *)
Definition offset (f : TRRFile) (step : N) : option Z :=
  offsets_ (members f) !! N.to_nat step.

(** [int TRRFile::natoms() const] *)
Definition natoms (f : TRRFile) : Z := natoms_ (members f).
End WithCodec.

End TRRFile.

(** ** The format registry ([src/FormatFactory.cpp]) *)

(** The class FormatInfo is declared in [Format.hpp], which is not under
    src/: of it the registry reads [name()] and [extension()]. *)
Module FormatInfo.
Record FormatInfo : Type := {
  name : string;
  extension : string;
  description : string
}.
End FormatInfo.
Abbreviation FormatInfo := FormatInfo.FormatInfo.

Module FormatFactory.

(** [static_cast<size_t>(-1)] *)
Definition SENTINEL_INDEX : N := 2 ^ 64 - 1.

(** Arithmetic of [size_t] and of [unsigned]. *)
Definition size_t_wrap (x : N) : N := x mod 2 ^ 64.
Definition unsigned_wrap (x : N) : N := x mod 2 ^ 32.
Definition size_t_pred (x : N) : N := size_t_wrap (x + (2 ^ 64 - 1)).
Definition unsigned_pred (x : N) : N := unsigned_wrap (x + (2 ^ 32 - 1)).

(** [std::tolower] in the "C" locale, on a [char]. *)
Definition tolower (c : ascii) : ascii :=
  let k := N_of_ascii c in
  if (65 <=? k)%N && (k <=? 90)%N then ascii_of_N (k + 32) else c.

(** [s[pos]] for a [const std::string]: the character at [pos], the null
    character at [pos == s.size()], undefined behaviour beyond. *)
Definition char_at (s : string) (pos : N) : outcome ascii :=
  match String.get (N.to_nat pos) s with
  | Some c => Ret c
  | None => if decide (N.to_nat pos = String.length s) then Ret zero else Undefined
  end.

(** [std::vector<std::vector<unsigned>>] with its two subscripts; a
    subscript outside the vector is undefined behaviour. *)
Abbreviation matrix := (list (list N)).

Definition mat_get (d : matrix) (i j : N) : outcome N :=
  match d !! N.to_nat i with
  | Some row =>
      match row !! N.to_nat j with
      | Some v => Ret v
      | None => Undefined
      end
  | None => Undefined
  end.

Definition mat_set (d : matrix) (i j : N) (v : N) : outcome matrix :=
  match d !! N.to_nat i with
  | Some row =>
      if decide (N.to_nat j < length row)%nat
      then Ret (<[N.to_nat i := <[N.to_nat j := v]> row]> d)
      else Undefined
  | None => Undefined
  end.

(** [for (unsigned i = start; i < bound; i++) body], with [bound] a
    [size_t]: the counter wraps at [2^32], the comparison is on 64 bits. *)
Fixpoint for_unsigned {S : Type} (fuel : nat) (i bound : N)
    (body : N -> S -> outcome S) (s : S) : outcome S :=
  match fuel with
  | O => Diverge
  | Datatypes.S fuel' =>
      if (i <? bound)%N then
        s' ← body i s;
        for_unsigned fuel' (unsigned_wrap (i + 1)) bound body s'
      else Ret s
  end.

(** [unsigned edit_distance(const std::string& first, const std::string& second)] *)
Definition edit_distance (fuel : nat) (first second : string) : outcome N :=
  let m := size_t_wrap (N.of_nat (String.length first) + 1) in
  let n := size_t_wrap (N.of_nat (String.length second) + 1) in
  let distances : matrix := replicate (N.to_nat m) (replicate (N.to_nat n) 0%N) in
  distances ← for_unsigned fuel 0 m (fun i d => mat_set d i 0 i) distances;
  distances ← for_unsigned fuel 0 n (fun j d => mat_set d 0 j j) distances;
  distances ← for_unsigned fuel 1 n (fun j d =>
    for_unsigned fuel 1 m (fun i d =>
      a ← char_at first (unsigned_pred i);
      b ← char_at second (unsigned_pred j);
      if decide (tolower a = tolower b) then
        v ← mat_get d (unsigned_pred i) (unsigned_pred j);
        mat_set d i j v
      else
        x ← mat_get d (unsigned_pred i) j;
        y ← mat_get d i (unsigned_pred j);
        z ← mat_get d (unsigned_pred i) (unsigned_pred j);
        mat_set d i j (N.min (N.min (unsigned_wrap (x + 1)) (unsigned_wrap (y + 1)))
                             (unsigned_wrap (z + 1)))) d) distances;
  mat_get distances (size_t_pred m) (size_t_pred n).

Section WithFormats.
(** [Format], [MemoryBuffer], [File::Mode] and [File::Compression] are
    declared in headers that are not under src/; the registry only passes
    them along. *)
Context {Format MemoryBuffer Mode Compression : Type}.

(** [format_creator_t] and [memory_stream_t]: functions that build a format
    or throw. *)
Definition format_creator_t : Type :=
  string -> Mode -> Compression -> outcome Format.
Definition memory_stream_t : Type :=
  MemoryBuffer -> Mode -> Compression -> outcome Format.

Record RegisteredFormat : Type := {
  info : FormatInfo;
  creator : format_creator_t;
  memory_stream_creator : memory_stream_t
}.

(** [f.info.name()] and [f.info.extension()] *)
Definition format_name (f : RegisteredFormat) : string := FormatInfo.name (info f).
Definition format_extension (f : RegisteredFormat) : string :=
  FormatInfo.extension (info f).

(** The table behind the mutex [formats_] is a
    [std::vector<RegisteredFormat>]. *)
Abbreviation registry := (list RegisteredFormat).

(** [find_by_name]: the loop [for (size_t i = 0; i < formats.size(); i++)],
    entered at index [i] with [formats] the entries from [i] on. *)
Fixpoint find_by_name_from (i : N) (formats : registry) (name : string) : N :=
  match formats with
  | [] => SENTINEL_INDEX
  | f :: rest =>
      if String.eqb (format_name f) name then i
      else find_by_name_from (size_t_wrap (i + 1)) rest name
  end.
Definition find_by_name (formats : registry) (name : string) : N :=
  find_by_name_from 0 formats name.

Fixpoint find_by_extension_from (i : N) (formats : registry) (extension : string) : N :=
  match formats with
  | [] => SENTINEL_INDEX
  | f :: rest =>
      if String.eqb (format_extension f) extension then i
      else find_by_extension_from (size_t_wrap (i + 1)) rest extension
  end.
Definition find_by_extension (formats : registry) (extension : string) : N :=
  find_by_extension_from 0 formats extension.

(** [formats.at(idx)] *)
Definition at_ {S A : Type} (formats : list A) (idx : N) : M S A :=
  match formats !! N.to_nat idx with
  | Some f => ret f
  | None => throw std_out_of_range
  end.

(** [formats[idx]] *)
Definition subscript {S A : Type} (formats : list A) (idx : N) : M S A :=
  match formats !! N.to_nat idx with
  | Some f => ret f
  | None => undefined
  end.

Definition no_name_message : string :=
  "can not register a format with no name".
Definition name_taken_message (name : string) : string :=
  ("there is already a format associated with the name '" ++ name ++ "'")%string.
Definition extension_taken_message (extension name : string) : string :=
  ("the extension '" ++ extension ++ "' is already associated with format '"
   ++ name ++ "'")%string.
Definition no_memory_message (name : string) : string :=
  ("in-memory IO is not supported for the '" ++ name ++ "' format")%string.

(** [void FormatFactory::register_format(FormatInfo info,
    format_creator_t creator, memory_stream_t memory_stream)] *)
Definition register_format (info : FormatInfo) (creator : format_creator_t)
    (memory_stream : memory_stream_t) : M registry unit :=
  (let! formats := get in
   (if String.eqb (FormatInfo.name info) ""
    then throw (FormatError no_name_message) else ret tt) ;;;
   let idx := find_by_name formats (FormatInfo.name info) in
   (if negb (idx =? SENTINEL_INDEX)%N
    then throw (FormatError (name_taken_message (FormatInfo.name info)))
    else ret tt) ;;;
   (if negb (String.eqb (FormatInfo.extension info) "") then
      let idx := find_by_extension formats (FormatInfo.extension info) in
      if negb (idx =? SENTINEL_INDEX)%N then
        let! other := subscript formats idx in
        throw (FormatError (extension_taken_message (FormatInfo.extension info)
                              (format_name other)))
      else ret tt
    else ret tt) ;;;
   modify (fun formats =>
     formats ++ [{| info := info; creator := creator;
                    memory_stream_creator := memory_stream |}]))%method.

(** [void FormatFactory::register_format(FormatInfo info,
    format_creator_t creator)] *)
Definition register_format_no_memory (info : FormatInfo) (creator : format_creator_t)
    : M registry unit :=
  register_format info creator
    (fun _ _ _ => Throw (FormatError (no_memory_message (FormatInfo.name info)))).

(** The loop of [suggest_names] that fills [suggestions]. *)
Fixpoint collect_suggestions (fuel : nat) (formats : registry) (name : string)
    (suggestions : list string) : outcome (list string) :=
  match formats with
  | [] => Ret suggestions
  | other :: rest =>
      d ← edit_distance fuel name (format_name other);
      collect_suggestions fuel rest name
        (if (d <? 4)%N then suggestions ++ [format_name other] else suggestions)
  end.

(** The loop of [suggest_names] that prints the suggestions; [first] is
    the flag of the source. *)
Fixpoint print_suggestions (suggestions : list string) (first : bool)
    (message : string) : string :=
  match suggestions with
  | [] => message
  | suggestion :: rest =>
      let message := if negb first then (message ++ " or")%string else message in
      let message := (message ++ " '" ++ suggestion ++ "'")%string in
      print_suggestions rest false message
  end.

(** [std::string suggest_names(const std::vector<RegisteredFormat>& formats,
    const std::string& name)] *)
Definition suggest_names (fuel : nat) (formats : registry) (name : string)
    : outcome string :=
  suggestions ← collect_suggestions fuel formats name [];
  let message := ("can not find a format named '" ++ name ++ "'")%string in
  Ret (match suggestions with
       | [] => message
       | _ :: _ =>
           let message := (message ++ ", did you mean")%string in
           let message := print_suggestions suggestions true message in
           (message ++ "?")%string
       end).

(** Lift a computation that does not touch the object. *)
Definition pure {S A : Type} (m : outcome A) : M S A := fun s => (m, s).

(** [format_creator_t FormatFactory::name(const std::string& name)] *)
Definition name (fuel : nat) (name : string) : M registry format_creator_t :=
  (let! formats := get in
   let idx := find_by_name formats name in
   if (idx =? SENTINEL_INDEX)%N then
     let! suggestions := pure (suggest_names fuel formats name) in
     throw (FormatError suggestions)
   else
     let! f := at_ formats idx in
     ret (creator f))%method.

(** [memory_stream_t FormatFactory::memory_stream(const std::string& name)] *)
Definition memory_stream (fuel : nat) (name : string) : M registry memory_stream_t :=
  (let! formats := get in
   let idx := find_by_name formats name in
   if (idx =? SENTINEL_INDEX)%N then
     let! suggestions := pure (suggest_names fuel formats name) in
     throw (FormatError suggestions)
   else
     let! f := at_ formats idx in
     ret (memory_stream_creator f))%method.

(** [format_creator_t FormatFactory::extension(const std::string& extension)] *)
Definition extension_message (extension : string) : string :=
  ("can not find a format associated with the '" ++ extension ++ "' extension")%string.
Definition extension (extension : string) : M registry format_creator_t :=
  (let! formats := get in
   let idx := find_by_extension formats extension in
   if (idx =? SENTINEL_INDEX)%N then
     throw (FormatError (extension_message extension))
   else
     let! f := at_ formats idx in
     ret (creator f))%method.

(** [std::vector<FormatInfo> FormatFactory::formats()] *)
Definition formats : M registry (list FormatInfo) :=
  (let! formats := get in ret (map info formats))%method.
End WithFormats.
Arguments RegisteredFormat : clear implicits.
Arguments format_creator_t : clear implicits.
Arguments memory_stream_t : clear implicits.

End FormatFactory.

(** * Properties *)

(** ** Methods: the range-based [for] *)

Section ForEach.
Context {S B : Type}.

(** A loop whose body only tests and throws stops at the first element
    that fails the test, with the object as it was. *)
Lemma for_each_guard (P : B -> bool) (e : B -> exception) (l : list B) (s : S) :
  for_each l (fun b => if P b then throw (e b) else ret tt) s =
  match List.find P l with
  | Some b => (Throw (e b), s)
  | None => (Ret tt, s)
  end.
Proof.
  induction l as [|b l IH]; simpl; [reflexivity|].
  unfold bind. destruct (P b); simpl; [reflexivity|]. apply IH.
Qed.

(** A loop whose body applies [f b] to the object when [P b] holds is a
    left fold. *)
Lemma for_each_modify (P : B -> bool) (f : B -> S -> S) (l : list B) (s : S) :
  for_each l (fun b => if P b then modify (f b) else ret tt) s =
  (Ret tt, fold_left (fun s b => if P b then f b s else s) l s).
Proof.
  revert s. induction l as [|b l IH]; intros s; simpl; [reflexivity|].
  unfold bind. destruct (P b); simpl; apply IH.
Qed.
End ForEach.

(** ** Topology *)

Section TopologyProperties.
Import Topology.
Context {Atom : Type} (Atom_UNDEFINED : Atom) (max_size : N).
Implicit Types (t : Topology Atom) (b : Bond) (natoms idx : N).

Definition out_of_range natoms b : bool :=
  (natoms <=? b.1)%N || (natoms <=? b.2)%N.

Definition incident idx b : bool := (b.1 =? idx)%N || (b.2 =? idx)%N.

Lemma resize_unfold natoms t :
  resize Atom_UNDEFINED max_size natoms t =
  match List.find (out_of_range natoms) (bonds t) with
  | Some b => (Throw (Error (resize_message natoms b)), t)
  | None =>
      if (max_size <? natoms)%N then (Throw std_length_error, t)
      else (Ret tt, set_atoms (fun atoms => resized atoms natoms Atom_UNDEFINED) t)
  end.
Proof.
  unfold resize, bind at 1, get. unfold bind at 1.
  rewrite (for_each_guard (out_of_range natoms)
             (fun b => Error (resize_message natoms b))).
  destruct (List.find _ _); [reflexivity|].
  unfold bind, get, run, vector_resize.
  destruct (max_size <? natoms)%N; reflexivity.
Qed.

Lemma find_out_of_range_some natoms (bs : list Bond) :
  (exists b, In b bs /\ ((natoms <= b.1)%N \/ (natoms <= b.2)%N)) ->
  exists b, List.find (out_of_range natoms) bs = Some b.
Proof.
  intros (b & Hin & Hb).
  destruct (List.find (out_of_range natoms) bs) as [b'|] eqn:Hfind; [eauto|].
  exfalso. pose proof (find_none _ _ Hfind b Hin) as Hnone.
  unfold out_of_range in Hnone. apply orb_false_elim in Hnone as [H1 H2].
  apply N.leb_gt in H1, H2. lia.
Qed.

Lemma find_out_of_range_none natoms (bs : list Bond) :
  (forall b, In b bs -> (b.1 < natoms)%N /\ (b.2 < natoms)%N) ->
  List.find (out_of_range natoms) bs = None.
Proof.
  intros Hall.
  destruct (List.find (out_of_range natoms) bs) as [b|] eqn:Hfind; [|reflexivity].
  exfalso. apply find_some in Hfind as [Hin Hb].
  destruct (Hall b Hin) as [H1 H2]. unfold out_of_range in Hb.
  apply orb_true_iff in Hb as [Hb|Hb]; apply N.leb_le in Hb; lia.
Qed.

Lemma vector_resize_length (atoms : list Atom) natoms x :
  length (resized atoms natoms x) = N.to_nat natoms.
Proof.
  unfold resized. rewrite length_app, length_take, length_replicate. lia.
Qed.

Lemma vector_resize_old (atoms : list Atom) natoms x (i : nat) :
  (i < length atoms)%nat -> (i < N.to_nat natoms)%nat ->
  resized atoms natoms x !! i = atoms !! i.
Proof.
  intros Hi Hn. unfold resized.
  rewrite lookup_app_l by (rewrite length_take; lia).
  apply lookup_take_lt. lia.
Qed.

Lemma vector_resize_new (atoms : list Atom) natoms x (i : nat) :
  (length atoms <= i)%nat -> (i < N.to_nat natoms)%nat ->
  resized atoms natoms x !! i = Some x.
Proof.
  intros Hi Hn. unfold resized.
  rewrite lookup_app_r by (rewrite length_take; lia).
  apply lookup_replicate_2. rewrite length_take. lia.
Qed.

(** The loop of [remove], run over the snapshot [snapshot], filters the
    bond set. *)
Lemma remove_loop idx (snapshot : list Bond) t :
  for_each snapshot (fun bond =>
    if (bond.1 =? idx)%N || (bond.2 =? idx)%N
    then modify (set_connect (remove_bond bond.1 bond.2))
    else ret tt) t =
  (Ret tt,
   set_connect (fun c =>
     {| bonds_ := List.filter (fun b =>
          negb (existsb (fun c => incident idx c && same_bond b c.1 c.2) snapshot))
          (bonds_ c) |}) t).
Proof.
  rewrite (for_each_modify (incident idx)
             (fun bond => set_connect (remove_bond bond.1 bond.2))).
  f_equal. revert t. induction snapshot as [|c l IH]; intros [atoms [bs]]; simpl.
  - unfold set_connect; simpl. do 2 f_equal.
    induction bs as [|b bs IHbs]; simpl; [reflexivity|]. now f_equal.
  - destruct (incident idx c) eqn:Hc; rewrite IH; unfold set_connect; simpl;
      [|reflexivity].
    do 2 f_equal.
    induction bs as [|b bs IHbs]; simpl; [reflexivity|].
    destruct (same_bond b c.1 c.2); simpl; [exact IHbs|].
    destruct (existsb _ l); simpl; [exact IHbs | now f_equal].
Qed.

Lemma same_bond_refl b : same_bond b b.1 b.2 = true.
Proof. unfold same_bond. rewrite !N.eqb_refl. reflexivity. Qed.

Lemma same_bond_incident idx b c :
  same_bond b c.1 c.2 = true -> incident idx c = incident idx b.
Proof.
  unfold same_bond, incident. intros H.
  apply orb_true_iff in H as [H|H]; apply andb_true_iff in H as [H1 H2];
    apply N.eqb_eq in H1, H2; rewrite H1, H2; [reflexivity | apply orb_comm].
Qed.

(** Over the snapshot of the whole bond set, the filter keeps the bonds
    that do not touch [idx]. *)
Lemma filter_snapshot idx (bs : list Bond) :
  List.filter (fun b =>
    negb (existsb (fun c => incident idx c && same_bond b c.1 c.2) bs)) bs =
  List.filter (fun b => negb (incident idx b)) bs.
Proof.
  apply filter_ext_in. intros b Hin. f_equal.
  destruct (incident idx b) eqn:Hb.
  - apply existsb_exists. exists b. split; [exact Hin|].
    rewrite Hb, same_bond_refl. reflexivity.
  - destruct (existsb _ bs) eqn:Hex; [|reflexivity].
    apply existsb_exists in Hex as (c & _ & Hc).
    apply andb_true_iff in Hc as [Hc Hsame].
    rewrite (same_bond_incident idx b c Hsame) in Hc. congruence.
Qed.

Lemma remove_unfold idx t :
  (N.to_nat idx < length (atoms_ t))%nat ->
  remove idx t =
  (Ret tt,
   {| atoms_ := vector_erase (atoms_ t) idx;
      connect_ := {| bonds_ :=
        List.filter (fun b => negb (incident idx b)) (bonds t) |} |}).
Proof.
  intros Hidx. unfold remove, bind at 1, get.
  destruct (decide _) as [_|]; [|contradiction].
  unfold bind at 1, modify. unfold bind at 1, get.
  rewrite remove_loop. destruct t as [atoms [bs]]; unfold set_connect, set_atoms; simpl.
  unfold bonds, Connectivity_bonds; simpl. now rewrite filter_snapshot.
Qed.

(** C1, as the code has it.  [resize(natoms)] throws the base [Error]
    whenever some bond has an index [>= natoms], in particular whenever a
    bond has the index [k] and [natoms <= k], and the topology after the
    throw is the topology before the call.  When every bond has both
    indices [< natoms] and [natoms] is at most the [max_size()] of the atom
    vector, [resize] returns, the atom sequence has length [natoms], keeps
    the atoms it had below [natoms], holds the undefined atom in every new
    slot, and the bonds are untouched.  When every bond has both indices
    [< natoms] and [natoms] is beyond [max_size()], the vector throws
    [std::length_error] and the topology is the topology before the
    call. *)
Theorem resize_spec natoms t :
  ((exists b, In b (bonds t) /\ ((natoms <= b.1)%N \/ (natoms <= b.2)%N)) ->
   exists msg, resize Atom_UNDEFINED max_size natoms t = (Throw (Error msg), t)) /\
  (forall k b, In b (bonds t) -> b.1 = k \/ b.2 = k -> (natoms <= k)%N ->
   exists msg, resize Atom_UNDEFINED max_size natoms t = (Throw (Error msg), t)) /\
  ((forall b, In b (bonds t) -> (b.1 < natoms)%N /\ (b.2 < natoms)%N) ->
   (natoms <= max_size)%N ->
   exists t',
     resize Atom_UNDEFINED max_size natoms t = (Ret tt, t') /\
     connect_ t' = connect_ t /\
     length (atoms_ t') = N.to_nat natoms /\
     (forall i : nat, (i < length (atoms_ t))%nat -> (i < N.to_nat natoms)%nat ->
        atoms_ t' !! i = atoms_ t !! i) /\
     (forall i : nat, (length (atoms_ t) <= i)%nat -> (i < N.to_nat natoms)%nat ->
        atoms_ t' !! i = Some Atom_UNDEFINED)) /\
  ((forall b, In b (bonds t) -> (b.1 < natoms)%N /\ (b.2 < natoms)%N) ->
   (max_size < natoms)%N ->
   resize Atom_UNDEFINED max_size natoms t = (Throw std_length_error, t)).
Proof.
  assert (Hfail : (exists b, In b (bonds t) /\ ((natoms <= b.1)%N \/ (natoms <= b.2)%N)) ->
                  exists msg, resize Atom_UNDEFINED max_size natoms t =
                              (Throw (Error msg), t)).
  { intros Hex. apply find_out_of_range_some in Hex as [b Hfind].
    rewrite resize_unfold, Hfind. eauto. }
  split; [exact Hfail|]. split; [|split].
  - intros k b Hin Hk Hle. apply Hfail. exists b. split; [exact Hin|].
    destruct Hk as [<-|<-]; auto.
  - intros Hall Hfits. rewrite resize_unfold, (find_out_of_range_none _ _ Hall).
    replace (max_size <? natoms)%N with false by (symmetry; apply N.ltb_ge; exact Hfits).
    eexists. split; [reflexivity|]. simpl. split; [reflexivity|].
    split; [apply vector_resize_length|].
    split; [apply vector_resize_old | apply vector_resize_new].
  - intros Hall Hbig. rewrite resize_unfold, (find_out_of_range_none _ _ Hall).
    replace (max_size <? natoms)%N with true by (symmetry; apply N.ltb_lt; exact Hbig).
    reflexivity.
Qed.

(** C6.  On three atoms with exactly the bonds (0,1) and (1,2),
    [remove(1)] returns and leaves the two outer atoms and no bond. *)
Theorem remove_middle_of_chain (a0 a1 a2 : Atom) :
  exists t',
    remove 1 {| atoms_ := [a0; a1; a2];
                connect_ := {| bonds_ := [(0, 1); (1, 2)]%N |} |} = (Ret tt, t') /\
    atoms_ t' = [a0; a2] /\
    length (atoms_ t') = 2%nat /\
    bonds t' = [].
Proof. eexists. split; [vm_compute; reflexivity|]. repeat split. Qed.

(** C7.  For an index inside the atom sequence, [remove(idx)] returns; the
    atom at [idx] is gone, the atoms before it keep their position and the
    atoms after it move down by one; the bonds left are exactly the bonds
    that had neither end equal to [idx], in the order and with the indices
    they had. *)
Theorem remove_spec idx t :
  (N.to_nat idx < length (atoms_ t))%nat ->
  exists t',
    remove idx t = (Ret tt, t') /\
    length (atoms_ t') = (length (atoms_ t) - 1)%nat /\
    (forall i : nat, (i < N.to_nat idx)%nat -> atoms_ t' !! i = atoms_ t !! i) /\
    (forall i : nat, (N.to_nat idx <= i)%nat -> atoms_ t' !! i = atoms_ t !! (i + 1)%nat) /\
    bonds t' = List.filter (fun b => negb (incident idx b)) (bonds t) /\
    (forall b, In b (bonds t') <-> In b (bonds t) /\ b.1 <> idx /\ b.2 <> idx).
Proof.
  intros Hidx. rewrite (remove_unfold idx t Hidx).
  eexists. split; [reflexivity|]. simpl. unfold vector_erase.
  split; [|split; [|split; [|split]]].
  - rewrite length_app, length_take, length_drop. lia.
  - intros i Hi. rewrite lookup_app_l by (rewrite length_take; lia).
    apply lookup_take_lt. exact Hi.
  - intros i Hi. rewrite lookup_app_r by (rewrite length_take; lia).
    rewrite length_take, lookup_drop. f_equal. lia.
  - reflexivity.
  - intros b. unfold bonds at 1, Connectivity_bonds; simpl.
    rewrite filter_In. unfold incident.
    rewrite negb_true_iff, orb_false_iff, !N.eqb_neq. tauto.
Qed.
End TopologyProperties.

Section TopologyWitnesses.
Import Topology.

Definition chain3 : Topology string :=
  {| atoms_ := ["C"; "O"; "H"];
     connect_ := {| bonds_ := [(0, 1); (1, 2)]%N |} |}.

(** An instance of [max_size()]: the largest [ptrdiff_t], which no
    [max_size()] exceeds. *)
Definition sample_max_size : N := 2 ^ 63 - 1.

Definition no_atoms : Topology string :=
  {| atoms_ := []; connect_ := {| bonds_ := [] |} |}.

Lemma resize_spec_witness :
  (exists msg, resize "" sample_max_size 2 chain3 = (Throw (Error msg), chain3)) /\
  (exists msg, resize "" sample_max_size 1 chain3 = (Throw (Error msg), chain3)) /\
  (exists t', resize "" sample_max_size 5 chain3 = (Ret tt, t') /\
              atoms_ t' = ["C"; "O"; "H"; ""; ""] /\ connect_ t' = connect_ chain3) /\
  resize "" sample_max_size (2 ^ 64 - 1) chain3 = (Throw std_length_error, chain3).
Proof.
  split; [|split; [|split]].
  - apply (proj1 (resize_spec "" sample_max_size 2 chain3)).
    exists (1, 2)%N. split; [right; left; reflexivity | right; simpl; lia].
  - apply (proj1 (proj2 (resize_spec "" sample_max_size 1 chain3)) 2%N (1, 2)%N).
    + right; left; reflexivity.
    + right; reflexivity.
    + lia.
  - destruct (proj1 (proj2 (proj2 (resize_spec "" sample_max_size 5 chain3))))
      as (t' & Hrun & Hc & _).
    + intros b [<-|[<-|[]]]; simpl; lia.
    + unfold sample_max_size. simpl. lia.
    + exists t'. split; [exact Hrun|]. split; [|exact Hc].
      vm_compute in Hrun. now inversion Hrun.
  - apply (proj2 (proj2 (proj2 (resize_spec "" sample_max_size (2 ^ 64 - 1) chain3)))).
    + intros b [<-|[<-|[]]]; simpl; lia.
    + unfold sample_max_size. simpl. lia.
Defined.

(** C1 as stated fails beyond [max_size()]: no bond is out of range, and
    [resize] neither grows nor truncates the atom sequence, the vector
    throws [std::length_error]. *)
Lemma resize_beyond_max_size :
  (forall b, In b (bonds no_atoms) -> (b.1 < 2 ^ 64 - 1)%N /\ (b.2 < 2 ^ 64 - 1)%N) /\
  resize "" sample_max_size (2 ^ 64 - 1) no_atoms = (Throw std_length_error, no_atoms) /\
  ~ (exists t', resize "" sample_max_size (2 ^ 64 - 1) no_atoms = (Ret tt, t')).
Proof.
  assert (Hrun : resize "" sample_max_size (2 ^ 64 - 1) no_atoms =
                 (Throw std_length_error, no_atoms)).
  { rewrite resize_unfold. reflexivity. }
  split; [intros b []|]. split; [exact Hrun|].
  intros [t' Hret]. rewrite Hrun in Hret. discriminate Hret.
Qed.

Lemma remove_spec_witness :
  exists t', remove 0 chain3 = (Ret tt, t') /\ bonds t' = [(1, 2)%N].
Proof.
  destruct (remove_spec 0 chain3) as (t' & Hrun & _ & _ & _ & Hb & _).
  - simpl. lia.
  - exists t'. split; [exact Hrun | exact Hb].
Defined.
End TopologyWitnesses.


(** ** The TRR file adapter *)

Section TRRFileProperties.
Import TRRFile.
Context (code : exdr -> Z) (exdr_message : Z -> string) {XDRFILE : Type}.
Context (read_trr_header : string -> header -> Z * header).
Context (xdrfile_open : string -> string -> option XDRFILE).

(** The [case] labels of a [switch] are distinct constants. *)
Hypothesis code_distinct : forall a b, code a = code b -> a = b.

Abbreviation check_trr_error' := (check_trr_error code exdr_message).
Abbreviation TRRFile_new' :=
  (TRRFile_new code exdr_message read_trr_header xdrfile_open).

Lemma error_labels_complete label : label <> exdrOK -> In label error_labels.
Proof. destruct label; simpl; intros H; try tauto. Qed.

Lemma error_labels_sound label : In label error_labels -> label <> exdrOK.
Proof. simpl. intros H Heq. subst label. repeat destruct H as [H|H]; congruence. Qed.

Lemma throwing_label status :
  existsb (fun label => (status =? code label)%Z) error_labels = true <->
  exists label, label <> exdrOK /\ status = code label.
Proof.
  rewrite existsb_exists. split.
  - intros (label & Hin & Heq). apply Z.eqb_eq in Heq.
    exists label. split; [apply error_labels_sound, Hin | exact Heq].
  - intros (label & Hne & Heq). exists label.
    split; [apply error_labels_complete, Hne | apply Z.eqb_eq, Heq].
Qed.

Lemma check_trr_error_ok function :
  check_trr_error' (code exdrOK) function = Ret tt.
Proof.
  unfold check_trr_error.
  destruct (existsb _ error_labels) eqn:Hex.
  - apply throwing_label in Hex as (label & Hne & Heq).
    apply code_distinct in Heq. congruence.
  - rewrite Z.eqb_refl. reflexivity.
Qed.

Lemma check_trr_error_label status function label :
  label <> exdrOK -> status = code label ->
  check_trr_error' status function =
  Throw (file_error_calling exdr_message function status).
Proof.
  intros Hne Heq. unfold check_trr_error.
  replace (existsb _ error_labels) with true; [reflexivity|].
  symmetry. apply throwing_label. eauto.
Qed.

Lemma check_trr_error_unknown status function :
  (forall label, status <> code label) ->
  check_trr_error' status function = Throw (file_error_unknown status).
Proof.
  intros Hnone. unfold check_trr_error.
  destruct (existsb _ error_labels) eqn:Hex.
  - apply throwing_label in Hex as (label & _ & Heq). now apply Hnone in Heq.
  - destruct (Z.eqb_spec status (code exdrOK)) as [Heq|_]; [|reflexivity].
    now apply Hnone in Heq.
Qed.

Lemma check_trr_error_not_ok status function :
  status <> code exdrOK ->
  exists msg, check_trr_error' status function = Throw (FileError msg).
Proof.
  intros Hne. unfold check_trr_error.
  destruct (existsb _ error_labels); [unfold file_error_calling; eauto|].
  destruct (Z.eqb_spec status (code exdrOK)) as [Heq|_]; [contradiction|].
  unfold file_error_unknown; eauto.
Qed.

(** What the constructor does once the open mode string and the header
    members are settled. *)
Definition open_with (path openmode : string) (mode : Mode) (hdr : header)
    : outcome (TRRFile (XDRFILE := XDRFILE)) :=
  match xdrfile_open path openmode with
  | Some handle =>
      Ret {| path := path; mode := mode; handle_ := Some handle; members := hdr |}
  | None => Throw (file_error_open path)
  end.

Lemma TRRFile_new_read path init :
  TRRFile_new' path READ init =
  (_ ← check_trr_error' (read_trr_header path init).1 read_trr_header_call;
   open_with path "r" READ (read_trr_header path init).2).
Proof.
  unfold TRRFile_new, open_with. destruct (read_trr_header path init) as [status hdr].
  simpl. destruct (check_trr_error _ _ status _); reflexivity.
Qed.

Lemma TRRFile_new_write path init :
  TRRFile_new' path WRITE init = open_with path "w" WRITE init.
Proof. reflexivity. Qed.

Lemma TRRFile_new_append path init :
  TRRFile_new' path APPEND init =
  open_with path "a" APPEND (read_trr_header path init).2.
Proof.
  unfold TRRFile_new, open_with. destruct (read_trr_header path init) as [status hdr].
  reflexivity.
Qed.

(** C4, as the code has it.  [check_trr_error] lets [exdrOK] through and
    turns every other status into a [FileError]: for each enumerated error
    status the message holds the text of the failing call and
    [exdr_message[status]]; for a value outside the enumeration it holds
    the number only.  The constructor passes the status of
    [read_trr_header] to [check_trr_error] in read mode, so that a status
    other than [exdrOK] throws a [FileError] and [exdrOK] goes on to open
    the file; in append mode it drops the status, and in write and append
    mode the only throw is for a null handle. *)
Theorem codec_status_translation (status : Z) (function path : string) (init : header) :
  check_trr_error' (code exdrOK) function = Ret tt /\
  (forall label, label <> exdrOK -> status = code label ->
     check_trr_error' status function =
     Throw (file_error_calling exdr_message function status)) /\
  ((forall label, status <> code label) ->
     check_trr_error' status function = Throw (file_error_unknown status)) /\
  (status <> code exdrOK ->
     exists msg, check_trr_error' status function = Throw (FileError msg)) /\
  ((read_trr_header path init).1 <> code exdrOK ->
     exists msg, TRRFile_new' path READ init = Throw (FileError msg)) /\
  (forall label, label <> exdrOK -> (read_trr_header path init).1 = code label ->
     TRRFile_new' path READ init =
     Throw (file_error_calling exdr_message read_trr_header_call (code label))) /\
  ((read_trr_header path init).1 = code exdrOK ->
     TRRFile_new' path READ init =
     open_with path "r" READ (read_trr_header path init).2) /\
  TRRFile_new' path WRITE init = open_with path "w" WRITE init /\
  TRRFile_new' path APPEND init =
    open_with path "a" APPEND (read_trr_header path init).2.
Proof.
  split; [apply check_trr_error_ok|].
  split; [apply check_trr_error_label|].
  split; [apply check_trr_error_unknown|].
  split; [apply check_trr_error_not_ok|].
  split; [|split; [|split; [|split]]].
  - intros Hne. rewrite TRRFile_new_read.
    destruct (check_trr_error_not_ok _ read_trr_header_call Hne) as [msg ->]. eauto.
  - intros label Hne Heq. rewrite TRRFile_new_read.
    rewrite (check_trr_error_label _ _ label Hne Heq), Heq. reflexivity.
  - intros Heq. rewrite TRRFile_new_read, Heq, check_trr_error_ok. reflexivity.
  - apply TRRFile_new_write.
  - apply TRRFile_new_append.
Qed.

(** C10.  [offset(step)] is the entry [step] of the offset table exactly when
    [step] is below the number of entries of the table, and a read outside
    the table otherwise; with a table of [nframes()] entries the bound is
    the frame count. *)
Theorem offset_in_bounds (f : TRRFile (XDRFILE := XDRFILE)) (step : N) :
  ((N.to_nat step < length (offsets_ (members f)))%nat ->
     exists v, offset f step = Some v /\
               v = nth (N.to_nat step) (offsets_ (members f)) 0%Z) /\
  (offset f step = None <-> (length (offsets_ (members f)) <= N.to_nat step)%nat) /\
  (N.of_nat (length (offsets_ (members f))) = nframes f -> (step < nframes f)%N ->
     offset f step <> None).
Proof.
  unfold offset, nframes. split; [|split].
  - intros Hlt. destruct (lookup_lt_is_Some_2 _ _ Hlt) as [v Hv].
    exists v. split; [exact Hv|]. symmetry. apply nth_lookup_Some with (d := 0%Z), Hv.
  - apply lookup_ge_None.
  - intros Hlen Hlt. rewrite lookup_ge_None. lia.
Qed.
End TRRFileProperties.

Section TRRFileWitnesses.
Import TRRFile.

(** An instance of the codec: the enumerators numbered from 0 in the order
    of their declaration, a message per number, a header read that reports
    a missing file and leaves the members alone, and an open that always
    gives a handle. *)
Definition sample_code (e : exdr) : Z :=
  match e with
  | exdrOK => 0 | exdrHEADER => 1 | exdrSTRING => 2 | exdrDOUBLE => 3
  | exdrINT => 4 | exdrFLOAT => 5 | exdrUINT => 6 | exdr3DX => 7
  | exdrCLOSE => 8 | exdrMAGIC => 9 | exdrNOMEM => 10 | exdrENDOFFILE => 11
  | exdrFILENOTFOUND => 12 | exdrNR => 13
  end.
Definition sample_message (status : Z) : string :=
  ("xdr message " ++ to_string_int status)%string.
Definition header_missing (path : string) (init : header) : Z * header :=
  (sample_code exdrFILENOTFOUND, init).
Definition open_always (path openmode : string) : option unit := Some tt.
Definition no_header : header := {| natoms_ := 0; nframes_ := 0; offsets_ := [] |}.
Definition three_frames : TRRFile (XDRFILE := unit) :=
  {| path := "traj.trr"; mode := READ; handle_ := Some tt;
     members := {| natoms_ := 4; nframes_ := 3; offsets_ := [0; 100; 250]%Z |} |}.

Lemma sample_code_distinct a b : sample_code a = sample_code b -> a = b.
Proof. destruct a, b; simpl; intros H; first [reflexivity | discriminate H]. Qed.

(** C4 as stated fails in append mode: the header read reports
    [exdrFILENOTFOUND], and the constructor returns a file. *)
Lemma append_drops_status :
  (header_missing "new.trr" no_header).1 <> sample_code exdrOK /\
  ~ (exists msg,
       TRRFile_new sample_code sample_message header_missing open_always
         "new.trr" APPEND no_header = Throw (FileError msg)) /\
  TRRFile_new sample_code sample_message header_missing open_always
    "new.trr" APPEND no_header =
  Ret {| path := "new.trr"; mode := APPEND; handle_ := Some tt; members := no_header |}.
Proof.
  split; [discriminate|]. split; [|reflexivity].
  intros [msg H]. discriminate H.
Qed.

Lemma codec_status_translation_witness :
  check_trr_error sample_code sample_message 12 "xdrfile_read(x)" =
    Throw (FileError
      "error while calling xdrfile_read(x) in the TRR library: xdr message 12") /\
  check_trr_error sample_code sample_message 77 "xdrfile_read(x)" =
    Throw (FileError "unknown status code from TRR library: 77") /\
  (exists msg,
     TRRFile_new sample_code sample_message header_missing open_always
       "new.trr" READ no_header = Throw (FileError msg)).
Proof.
  destruct (codec_status_translation sample_code sample_message header_missing
              open_always sample_code_distinct 12 "xdrfile_read(x)" "new.trr" no_header)
    as (_ & Hlabel & _ & _ & Hread & _).
  destruct (codec_status_translation sample_code sample_message header_missing
              open_always sample_code_distinct 77 "xdrfile_read(x)" "new.trr" no_header)
    as (_ & _ & Hunknown & _).
  split; [|split].
  - apply (Hlabel exdrFILENOTFOUND); [discriminate | reflexivity].
  - apply Hunknown. intros label. destruct label; discriminate.
  - apply Hread. discriminate.
Defined.

Lemma offset_in_bounds_witness :
  exists v, offset three_frames 1 = Some v /\ v = 100%Z.
Proof.
  destruct (offset_in_bounds three_frames 1) as (Hin & _ & _).
  apply Hin. simpl. lia.
Defined.
End TRRFileWitnesses.


(** ** The format registry: registration *)

Section RegistryProperties.
Import FormatFactory.
Context {Format MemoryBuffer Mode Compression : Type}.
Abbreviation RegisteredFormat' := (RegisteredFormat Format MemoryBuffer Mode Compression).
Abbreviation registry' := (list RegisteredFormat').
Implicit Types (formats : registry') (f other : RegisteredFormat') (i idx : N).

(** A [std::vector] holds fewer elements than the largest [size_t]. *)
Definition vector_size_ok formats : Prop :=
  (N.of_nat (length formats) < SENTINEL_INDEX)%N.

(** The two search loops, over the key they compare. *)
Fixpoint find_from (key : RegisteredFormat' -> string) i formats (x : string) : N :=
  match formats with
  | [] => SENTINEL_INDEX
  | f :: rest =>
      if String.eqb (key f) x then i else find_from key (size_t_wrap (i + 1)) rest x
  end.

Lemma find_by_name_from_key i formats x :
  find_by_name_from i formats x = find_from format_name i formats x.
Proof. revert i. induction formats as [|f rest IH]; intros i; simpl; now rewrite ?IH. Qed.

Lemma find_by_extension_from_key i formats x :
  find_by_extension_from i formats x = find_from format_extension i formats x.
Proof. revert i. induction formats as [|f rest IH]; intros i; simpl; now rewrite ?IH. Qed.

Lemma find_from_absent key i formats x :
  (forall f, In f formats -> key f <> x) ->
  find_from key i formats x = SENTINEL_INDEX.
Proof.
  revert i. induction formats as [|f rest IH]; intros i Hall; simpl; [reflexivity|].
  destruct (String.eqb_spec (key f) x) as [Heq|_].
  - exfalso. apply (Hall f); [left; reflexivity | exact Heq].
  - apply IH. intros g Hg. apply Hall. right. exact Hg.
Qed.

(** When some entry has the key, the loop returns the index of the first
    such entry, counted from [i]. *)
Lemma find_from_present key i formats x :
  (i + N.of_nat (length formats) <= SENTINEL_INDEX)%N ->
  (exists f, In f formats /\ key f = x) ->
  exists (k : nat) f,
    find_from key i formats x = (i + N.of_nat k)%N /\
    formats !! k = Some f /\ key f = x /\
    (forall (j : nat) g, (j < k)%nat -> formats !! j = Some g -> key g <> x).
Proof.
  revert i. induction formats as [|f rest IH]; intros i Hsize (g & Hin & Hg).
  - destruct Hin.
  - simpl. destruct (String.eqb_spec (key f) x) as [Heq|Hne].
    + exists 0%nat, f. rewrite N.add_0_r. repeat split; auto. intros; lia.
    + destruct Hin as [->|Hin]; [contradiction|].
      assert (Hwrap : size_t_wrap (i + 1) = (i + 1)%N).
      { unfold size_t_wrap. apply N.mod_small. unfold SENTINEL_INDEX in Hsize.
        simpl length in Hsize. lia. }
      rewrite Hwrap.
      destruct (IH (i + 1)%N) as (k & h & Hfind & Hk & Hh & Hfirst).
      { simpl length in Hsize. lia. }
      { eauto. }
      exists (S k), h. split; [rewrite Hfind; lia|]. split; [exact Hk|].
      split; [exact Hh|]. intros [|j] g' Hj Hg'; simpl in Hg'.
      * now inversion Hg'; subst.
      * apply (Hfirst j g'); [lia | exact Hg'].
Qed.

Lemma find_from_present_index key formats x :
  vector_size_ok formats ->
  (exists f, In f formats /\ key f = x) ->
  exists other,
    find_from key 0 formats x <> SENTINEL_INDEX /\
    formats !! N.to_nat (find_from key 0 formats x) = Some other /\
    In other formats /\ key other = x.
Proof.
  intros Hsize Hex. unfold vector_size_ok in Hsize.
  destruct (find_from_present key 0 formats x) as (k & f & Hfind & Hk & Hf & _);
    [lia | exact Hex |].
  exists f. rewrite Hfind, N.add_0_l, Nat2N.id.
  pose proof (lookup_lt_Some _ _ _ Hk) as Hlt.
  split; [lia|]. split; [exact Hk|]. split; [|exact Hf].
  apply list_elem_of_In. eapply list_elem_of_lookup_2, Hk.
Qed.

Definition new_entry (info : FormatInfo) (creator : format_creator_t Format Mode Compression)
    (memory_stream : memory_stream_t Format MemoryBuffer Mode Compression)
    : RegisteredFormat' :=
  {| info := info; creator := creator; memory_stream_creator := memory_stream |}.

Definition name_taken formats (info : FormatInfo) : Prop :=
  exists f, In f formats /\ format_name f = FormatInfo.name info.
Definition extension_taken formats (info : FormatInfo) : Prop :=
  FormatInfo.extension info <> "" /\
  exists f, In f formats /\ format_extension f = FormatInfo.extension info.

Lemma classic_name_taken formats info : name_taken formats info \/ ~ name_taken formats info.
Proof.
  unfold name_taken. induction formats as [|f rest IH].
  - right. intros (g & [] & _).
  - destruct (string_dec (format_name f) (FormatInfo.name info)) as [Heq|Hne].
    + left. exists f. split; [left; reflexivity | exact Heq].
    + destruct IH as [(g & Hin & Hg)|Hno].
      * left. exists g. split; [right; exact Hin | exact Hg].
      * right. intros (g & [->|Hin] & Hg); [contradiction|]. apply Hno. eauto.
Qed.

Lemma classic_extension_taken formats info :
  extension_taken formats info \/ ~ extension_taken formats info.
Proof.
  unfold extension_taken.
  destruct (string_dec (FormatInfo.extension info) "") as [Hempty|Hne]; [right; tauto|].
  induction formats as [|f rest IH].
  - right. intros (_ & g & [] & _).
  - destruct (string_dec (format_extension f) (FormatInfo.extension info)) as [Heq|Hne'].
    + left. split; [exact Hne|]. exists f. split; [left; reflexivity | exact Heq].
    + destruct IH as [(_ & g & Hin & Hg)|Hno].
      * left. split; [exact Hne|]. exists g. split; [right; exact Hin | exact Hg].
      * right. intros (_ & g & [->|Hin] & Hg); [contradiction|]. apply Hno. eauto.
Qed.

Lemma register_format_no_name info creator memory_stream formats :
  FormatInfo.name info = "" ->
  register_format info creator memory_stream formats =
  (Throw (FormatError no_name_message), formats).
Proof. intros Hname. unfold register_format, bind, get. rewrite Hname. reflexivity. Qed.

Lemma register_format_name_taken info creator memory_stream formats :
  vector_size_ok formats -> FormatInfo.name info <> "" -> name_taken formats info ->
  register_format info creator memory_stream formats =
  (Throw (FormatError (name_taken_message (FormatInfo.name info))), formats).
Proof.
  intros Hsize Hname Htaken. unfold register_format, bind, get.
  destruct (String.eqb_spec (FormatInfo.name info) "") as [|_]; [contradiction|]. simpl.
  unfold find_by_name. rewrite find_by_name_from_key.
  destruct (find_from_present_index format_name formats _ Hsize Htaken)
    as (other & Hidx & _).
  apply N.eqb_neq in Hidx. rewrite Hidx. reflexivity.
Qed.

Lemma register_format_extension_taken info creator memory_stream formats :
  vector_size_ok formats -> FormatInfo.name info <> "" -> ~ name_taken formats info ->
  extension_taken formats info ->
  exists other,
    In other formats /\ format_extension other = FormatInfo.extension info /\
    register_format info creator memory_stream formats =
    (Throw (FormatError (extension_taken_message (FormatInfo.extension info)
                           (format_name other))), formats).
Proof.
  intros Hsize Hname Hfree [Hext Htaken]. unfold register_format, bind, get.
  destruct (String.eqb_spec (FormatInfo.name info) "") as [|_]; [contradiction|]. simpl.
  unfold find_by_name, find_by_extension.
  rewrite find_by_name_from_key, find_by_extension_from_key.
  rewrite find_from_absent by (intros f Hf Heq; apply Hfree; exists f; auto).
  rewrite N.eqb_refl. simpl.
  destruct (String.eqb_spec (FormatInfo.extension info) "") as [|_]; [contradiction|]. simpl.
  destruct (find_from_present_index format_extension formats _ Hsize Htaken)
    as (other & Hidx & Hlook & Hin & Hother).
  exists other. split; [exact Hin|]. split; [exact Hother|].
  apply N.eqb_neq in Hidx. rewrite Hidx. simpl.
  unfold subscript. rewrite Hlook. reflexivity.
Qed.

Lemma register_format_fresh info creator memory_stream formats :
  FormatInfo.name info <> "" -> ~ name_taken formats info ->
  ~ extension_taken formats info ->
  register_format info creator memory_stream formats =
  (Ret tt, formats ++ [new_entry info creator memory_stream]).
Proof.
  intros Hname Hfree Hext. unfold register_format, bind, get.
  destruct (String.eqb_spec (FormatInfo.name info) "") as [|_]; [contradiction|]. simpl.
  unfold find_by_name, find_by_extension.
  rewrite find_by_name_from_key, find_by_extension_from_key.
  rewrite find_from_absent by (intros f Hf Heq; apply Hfree; exists f; auto).
  rewrite N.eqb_refl. simpl.
  destruct (String.eqb_spec (FormatInfo.extension info) "") as [|Hne]; simpl;
    [reflexivity|].
  rewrite find_from_absent.
  - rewrite N.eqb_refl. reflexivity.
  - intros f Hf Heq. apply Hext. split; [exact Hne|]. exists f. auto.
Qed.

(** The first entry called [q], when there is one. *)
Lemma find_by_name_first formats (q : string) :
  vector_size_ok formats ->
  (exists f, In f formats /\ format_name f = q) ->
  exists (k : nat) f,
    find_by_name formats q = N.of_nat k /\
    find_by_name formats q <> SENTINEL_INDEX /\
    formats !! k = Some f /\ format_name f = q /\
    (forall (j : nat) g, (j < k)%nat -> formats !! j = Some g -> format_name g <> q).
Proof.
  intros Hsize Hex. unfold vector_size_ok in Hsize.
  unfold find_by_name. rewrite find_by_name_from_key.
  destruct (find_from_present format_name 0 formats q) as (k & f & Hfind & Hk & Hf & Hfirst);
    [lia | exact Hex |].
  exists k, f. rewrite Hfind, N.add_0_l.
  pose proof (lookup_lt_Some _ _ _ Hk) as Hlt.
  repeat split; auto. lia.
Qed.

Lemma name_found fuel formats (q : string) (k : nat) f :
  find_by_name formats q = N.of_nat k -> find_by_name formats q <> SENTINEL_INDEX ->
  formats !! k = Some f ->
  name fuel q formats = (Ret (creator f), formats) /\
  memory_stream fuel q formats = (Ret (memory_stream_creator f), formats).
Proof.
  intros Hfind Hne Hk. unfold name, memory_stream, bind, get.
  apply N.eqb_neq in Hne. rewrite Hne. unfold at_.
  rewrite Hfind, Nat2N.id, Hk. split; reflexivity.
Qed.

(** C2.  [register_format] throws a [FormatError] when the name is empty,
    when an entry already has the name, and when the extension is not empty
    and an entry already has it; whenever it throws, the table is the table
    before the call.  Otherwise it returns and the table is the old one
    with the new entry at the end, so that the listing is the old listing
    followed by the new [info]. *)
Theorem register_format_spec (info : FormatInfo)
    (creator : format_creator_t Format Mode Compression)
    (memory_stream : memory_stream_t Format MemoryBuffer Mode Compression) formats :
  vector_size_ok formats ->
  (FormatInfo.name info = "" \/ name_taken formats info \/ extension_taken formats info ->
   exists msg,
     register_format info creator memory_stream formats =
     (Throw (FormatError msg), formats)) /\
  (FormatInfo.name info <> "" -> ~ name_taken formats info ->
   ~ extension_taken formats info ->
   register_format info creator memory_stream formats =
     (Ret tt, formats ++ [new_entry info creator memory_stream]) /\
   (FormatFactory.formats (formats ++ [new_entry info creator memory_stream])).1 =
     Ret ((map FormatFactory.info formats) ++ [info])) /\
  (forall e, (register_format info creator memory_stream formats).1 = Throw e ->
   (register_format info creator memory_stream formats).2 = formats).
Proof.
  intros Hsize.
  assert (Hfail : FormatInfo.name info = "" \/ name_taken formats info \/
                  extension_taken formats info ->
                  exists msg, register_format info creator memory_stream formats =
                              (Throw (FormatError msg), formats)).
  { intros Hcase.
    destruct (string_dec (FormatInfo.name info) "") as [Hname|Hname].
    { rewrite register_format_no_name by exact Hname. eauto. }
    destruct Hcase as [Hempty|[Htaken|Hext]]; [contradiction| |].
    { rewrite register_format_name_taken by assumption. eauto. }
    destruct (classic_name_taken formats info) as [Htaken|Hfree].
    { rewrite register_format_name_taken by assumption. eauto. }
    destruct (register_format_extension_taken info creator memory_stream formats
                Hsize Hname Hfree Hext) as (other & _ & _ & ->). eauto. }
  split; [exact Hfail|]. split.
  - intros Hname Hfree Hext. split; [now apply register_format_fresh|].
    unfold FormatFactory.formats, bind, get, ret. simpl. now rewrite map_app.
  - intros e Hthrow.
    destruct (string_dec (FormatInfo.name info) "") as [Hname|Hname].
    { now rewrite register_format_no_name by exact Hname. }
    destruct (classic_name_taken formats info) as [Htaken|Hfree].
    { now rewrite register_format_name_taken by assumption. }
    destruct (classic_extension_taken formats info) as [Hext|Hext].
    { destruct (register_format_extension_taken info creator memory_stream formats
                  Hsize Hname Hfree Hext) as (other & _ & _ & ->). reflexivity. }
    rewrite register_format_fresh in Hthrow by assumption. discriminate Hthrow.
Qed.

(** C8.  With a name that is not empty and no collision, the registration
    without a memory creator returns; the in-memory constructor that a
    later lookup of the name hands out throws, on every argument, the
    [FormatError] that in-memory IO is not supported for that name. *)
Theorem register_format_no_memory_spec (fuel : nat) (info : FormatInfo)
    (creator : format_creator_t Format Mode Compression) formats :
  vector_size_ok formats ->
  FormatInfo.name info <> "" -> ~ name_taken formats info ->
  ~ extension_taken formats info ->
  exists formats' memory_stream,
    register_format_no_memory info creator formats = (Ret tt, formats') /\
    FormatFactory.memory_stream fuel (FormatInfo.name info) formats' =
      (Ret memory_stream, formats') /\
    forall buffer mode compression,
      memory_stream buffer mode compression =
      Throw (FormatError (no_memory_message (FormatInfo.name info))).
Proof.
  intros Hsize Hname Hfree Hext. unfold register_format_no_memory.
  rewrite register_format_fresh by assumption.
  set (entry := new_entry info creator _). exists (formats ++ [entry]).
  assert (Hfind : find_by_name (formats ++ [entry]) (FormatInfo.name info) =
                  N.of_nat (length formats)).
  { unfold find_by_name. rewrite find_by_name_from_key.
    destruct (find_from_present format_name 0 (formats ++ [entry]) (FormatInfo.name info))
      as (k & f & Hk & Hlook & Hf & _).
    - unfold vector_size_ok in Hsize. rewrite length_app. simpl. lia.
    - exists entry. split; [apply in_or_app; right; left; reflexivity | reflexivity].
    - rewrite Hk, N.add_0_l. f_equal.
      destruct (decide (k < length formats)%nat) as [Hlt|Hge].
      + exfalso. rewrite lookup_app_l in Hlook by exact Hlt. apply Hfree.
        exists f. split; [|exact Hf].
        apply list_elem_of_In. eapply list_elem_of_lookup_2, Hlook.
      + pose proof (lookup_lt_Some _ _ _ Hlook) as Hlt.
        rewrite length_app in Hlt. simpl in Hlt. lia. }
  eexists. split; [reflexivity|]. split.
  - eapply (name_found fuel (formats ++ [entry]) _ (length formats) entry).
    + exact Hfind.
    + rewrite Hfind. unfold vector_size_ok in Hsize. lia.
    + rewrite lookup_app_r by lia. now rewrite Nat.sub_diag.
  - reflexivity.
Qed.
End RegistryProperties.


(** ** Edit distance on sequences *)

Section Levenshtein.
Context {A K : Type} `{EqDecision K} (key : A -> K).
Implicit Types (a b c : list A) (x y z : A) (n k p : nat).

(** Two characters compare equal when their keys do (for the registry:
    when they are the same letter up to case). *)
Definition same x y : bool := bool_decide (key x = key y).

(** The spec's words: "classic edit distance ... unit
    insertion/deletion/substitution cost".  The distance from [x :: a] to
    [y :: b] is the least of: delete [x], insert [y], or pair [x] with [y],
    at cost 0 when they compare equal and 1 when [y] replaces [x]. *)
Fixpoint levenshtein a b {struct a} : nat :=
  match a with
  | [] => length b
  | x :: a' =>
      (fix insertions b : nat :=
         match b with
         | [] => S (length a')
         | y :: b' =>
             Nat.min (Nat.min (S (levenshtein a' b)) (S (insertions b')))
                     ((if same x y then 0 else 1) + levenshtein a' b')
         end) b
  end.

(** The recurrence that the loops of [edit_distance] fill the table with. *)
Fixpoint wagner_fischer a b {struct a} : nat :=
  match a with
  | [] => length b
  | x :: a' =>
      (fix column b : nat :=
         match b with
         | [] => S (length a')
         | y :: b' =>
             if same x y then wagner_fischer a' b'
             else Nat.min (Nat.min (wagner_fischer a' b + 1) (column b' + 1))
                          (wagner_fischer a' b' + 1)
         end) b
  end.

(** An edit script from [a] to [b], with its cost. *)
Inductive align : list A -> list A -> nat -> Prop :=
| align_nil : align [] [] 0
| align_delete x a b n : align a b n -> align (x :: a) b (S n)
| align_insert y a b n : align a b n -> align a (y :: b) (S n)
| align_substitute x y a b n : align a b n -> align (x :: a) (y :: b) (S n)
| align_match x y a b n : key x = key y -> align a b n -> align (x :: a) (y :: b) n.

Lemma levenshtein_nil_r a : levenshtein a [] = length a.
Proof. destruct a; reflexivity. Qed.

Lemma levenshtein_cons x a y b :
  levenshtein (x :: a) (y :: b) =
  Nat.min (Nat.min (S (levenshtein a (y :: b))) (S (levenshtein (x :: a) b)))
          ((if same x y then 0 else 1) + levenshtein a b).
Proof. reflexivity. Qed.

Lemma wagner_fischer_nil_r a : wagner_fischer a [] = length a.
Proof. destruct a; reflexivity. Qed.

Lemma wagner_fischer_cons x a y b :
  wagner_fischer (x :: a) (y :: b) =
  if same x y then wagner_fischer a b
  else Nat.min (Nat.min (wagner_fischer a (y :: b) + 1) (wagner_fischer (x :: a) b + 1))
               (wagner_fischer a b + 1).
Proof. reflexivity. Qed.

Lemma align_refl a : align a a 0.
Proof. induction a; [constructor | now apply align_match]. Qed.

Lemma align_sym a b n : align a b n -> align b a n.
Proof. induction 1; eauto using align. Qed.

Lemma align_from_nil b : align [] b (length b).
Proof. induction b; simpl; eauto using align. Qed.

Lemma align_to_nil a : align a [] (length a).
Proof. induction a; simpl; eauto using align. Qed.

Lemma align_prepend c1 a c p : align a c p -> align a (c1 ++ c) (length c1 + p).
Proof. intros H. induction c1; simpl; eauto using align. Qed.

Lemma align_app a b n a' b' n' :
  align a b n -> align a' b' n' -> align (a ++ a') (b ++ b') (n + n').
Proof. intros H H'. induction H; simpl; eauto using align. Qed.

Lemma align_reverse a b n : align a b n -> align (reverse a) (reverse b) n.
Proof.
  induction 1 as [|x a b n _ IH|y a b n _ IH|x y a b n _ IH|x y a b n Hxy _ IH];
    rewrite ?reverse_cons.
  - constructor.
  - rewrite <- (app_nil_r (reverse b)). replace (S n) with (n + 1) by lia.
    apply align_app; [exact IH | apply (align_to_nil [x])].
  - rewrite <- (app_nil_r (reverse a)). replace (S n) with (n + 1) by lia.
    apply align_app; [exact IH | apply (align_from_nil [y])].
  - replace (S n) with (n + 1) by lia.
    apply align_app; [exact IH | apply align_substitute; constructor].
  - replace n with (n + 0) by lia.
    apply align_app; [exact IH | apply align_match; [exact Hxy | constructor]].
Qed.

(** How a script out of [y :: b] uses up [y]: after inserting a prefix
    [c1] of the target, it deletes [y], replaces it, or matches it. *)
Lemma align_head y b c k :
  align (y :: b) c k ->
  exists c1 c2 k',
    c = c1 ++ c2 /\ k = length c1 + k' /\
    ((exists k'', k' = S k'' /\ align b c2 k'') \/
     (exists z c' k'', c2 = z :: c' /\ k' = S k'' /\ align b c' k'') \/
     (exists z c', c2 = z :: c' /\ key y = key z /\ align b c' k')).
Proof.
  intros H. remember (y :: b) as b0 eqn:Hb0. revert y b Hb0.
  induction H as [|x a c n H _|z a c n H IH|x z a c n H _|x z a c n Hxz H _];
    intros y b Hb0.
  - discriminate.
  - injection Hb0 as -> ->. exists [], c, (S n). simpl. eauto 10.
  - destruct (IH y b Hb0) as (c1 & c2 & k' & -> & -> & Hcase).
    exists (z :: c1), c2, k'. simpl. auto.
  - injection Hb0 as -> ->. exists [], (z :: c), (S n). simpl.
    split; [reflexivity|]. split; [reflexivity|]. right; left. eauto 10.
  - injection Hb0 as -> ->. exists [], (z :: c), n. simpl.
    split; [reflexivity|]. split; [reflexivity|]. right; right. eauto 10.
Qed.

(** Scripts compose, at no more than the sum of the costs. *)
Lemma align_trans a b c n k :
  align a b n -> align b c k -> exists p, p <= n + k /\ align a c p.
Proof.
  intros H. revert c k.
  induction H as [|x a b n H IH|y a b n H IH|x y a b n H IH|x y a b n Hxy H IH];
    intros c k H2.
  - exists k. split; [lia | exact H2].
  - destruct (IH c k H2) as (p & Hp & Hac).
    exists (S p). split; [lia | now apply align_delete].
  - apply align_head in H2 as (c1 & c2 & k' & -> & -> & Hcase).
    destruct Hcase as [(k'' & -> & Hb)|[(z & c' & k'' & -> & -> & Hb)|(z & c' & -> & Hyz & Hb)]];
      destruct (IH _ _ Hb) as (p & Hp & Hac).
    + exists (length c1 + p). split; [lia | now apply align_prepend].
    + exists (length c1 + S p). split; [lia|].
      now apply align_prepend, align_insert.
    + exists (length c1 + S p). split; [lia|].
      now apply align_prepend, align_insert.
  - apply align_head in H2 as (c1 & c2 & k' & -> & -> & Hcase).
    destruct Hcase as [(k'' & -> & Hb)|[(z & c' & k'' & -> & -> & Hb)|(z & c' & -> & Hyz & Hb)]];
      destruct (IH _ _ Hb) as (p & Hp & Hac).
    + exists (length c1 + S p). split; [lia|].
      now apply align_prepend, align_delete.
    + exists (length c1 + S p). split; [lia|].
      now apply align_prepend, align_substitute.
    + exists (length c1 + S p). split; [lia|].
      now apply align_prepend, align_substitute.
  - apply align_head in H2 as (c1 & c2 & k' & -> & -> & Hcase).
    destruct Hcase as [(k'' & -> & Hb)|[(z & c' & k'' & -> & -> & Hb)|(z & c' & -> & Hyz & Hb)]];
      destruct (IH _ _ Hb) as (p & Hp & Hac).
    + exists (length c1 + S p). split; [lia|].
      now apply align_prepend, align_delete.
    + exists (length c1 + S p). split; [lia|].
      now apply align_prepend, align_substitute.
    + exists (length c1 + p). split; [lia|].
      apply align_prepend, align_match; [congruence | exact Hac].
Qed.

(** [levenshtein] is the cost of a script, and no script is cheaper. *)
Lemma levenshtein_align a b : align a b (levenshtein a b).
Proof.
  revert b. induction a as [|x a IHa]; intros b; [apply align_from_nil|].
  induction b as [|y b IHb]; [apply (align_to_nil (x :: a))|].
  rewrite levenshtein_cons.
  destruct (Nat.min_spec (S (levenshtein a (y :: b))) (S (levenshtein (x :: a) b)))
    as [[_ ->]|[_ ->]];
  match goal with |- context [Nat.min ?u ?v] =>
    destruct (Nat.min_spec u v) as [[_ ->]|[_ ->]] end.
  - apply align_delete, IHa.
  - unfold same. destruct (bool_decide_reflect (key x = key y)); simpl.
    + now apply align_match.
    + apply align_substitute, IHa.
  - apply align_insert, IHb.
  - unfold same. destruct (bool_decide_reflect (key x = key y)); simpl.
    + now apply align_match.
    + apply align_substitute, IHa.
Qed.

Lemma levenshtein_least a b n : align a b n -> levenshtein a b <= n.
Proof.
  induction 1 as [|x a b n _ IH|y a b n _ IH|x y a b n _ IH|x y a b n Hxy _ IH].
  - reflexivity.
  - destruct b as [|y b]; [rewrite !levenshtein_nil_r in *; simpl; lia|].
    rewrite levenshtein_cons. lia.
  - destruct a as [|x a]; [simpl in *; lia|].
    rewrite levenshtein_cons. lia.
  - rewrite levenshtein_cons. destruct (same x y); lia.
  - rewrite levenshtein_cons. unfold same. rewrite bool_decide_eq_true_2 by exact Hxy. lia.
Qed.

Lemma levenshtein_refl a : levenshtein a a = 0.
Proof. pose proof (levenshtein_least _ _ _ (align_refl a)). lia. Qed.

Lemma levenshtein_sym a b : levenshtein a b = levenshtein b a.
Proof.
  apply Nat.le_antisymm; apply levenshtein_least, align_sym, levenshtein_align.
Qed.

Lemma levenshtein_triangle a b c :
  levenshtein a c <= levenshtein a b + levenshtein b c.
Proof.
  destruct (align_trans _ _ _ _ _ (levenshtein_align a b) (levenshtein_align b c))
    as (p & Hp & Hac).
  apply levenshtein_least in Hac. lia.
Qed.

Lemma levenshtein_reverse a b : levenshtein (reverse a) (reverse b) = levenshtein a b.
Proof.
  apply Nat.le_antisymm.
  - apply levenshtein_least, align_reverse, levenshtein_align.
  - rewrite <- (reverse_involutive a), <- (reverse_involutive b) at 1.
    apply levenshtein_least, align_reverse, levenshtein_align.
Qed.

Lemma levenshtein_le_max a b : levenshtein a b <= Nat.max (length a) (length b).
Proof.
  revert b. induction a as [|x a IH]; intros b; [simpl; lia|].
  destruct b as [|y b]; [simpl; lia|].
  rewrite levenshtein_cons. specialize (IH b). simpl length. destruct (same x y); lia.
Qed.

(** Dropping the first character of either side moves the distance by at
    most one. *)
Lemma levenshtein_drop_l x a b : levenshtein a b <= S (levenshtein (x :: a) b).
Proof.
  pose proof (levenshtein_triangle a (x :: a) b) as Htri.
  assert (levenshtein a (x :: a) <= 1); [|lia].
  apply levenshtein_least, align_insert, align_refl.
Qed.

Lemma levenshtein_drop_r y a b : levenshtein a b <= S (levenshtein a (y :: b)).
Proof. rewrite (levenshtein_sym a b), (levenshtein_sym a (y :: b)). apply levenshtein_drop_l. Qed.

(** The recurrence of the code computes the classic distance. *)
Lemma wagner_fischer_levenshtein a b : wagner_fischer a b = levenshtein a b.
Proof.
  revert b. induction a as [|x a IHa]; intros b; [reflexivity|].
  induction b as [|y b IHb]; [reflexivity|].
  rewrite wagner_fischer_cons, levenshtein_cons, IHb, !IHa.
  pose proof (levenshtein_drop_l x a b). pose proof (levenshtein_drop_r y a b).
  pose proof (levenshtein_least _ _ _ (align_delete x _ _ _ (levenshtein_align a (y :: b)))).
  destruct (same x y); lia.
Qed.
End Levenshtein.


(** ** The loops and the table of [edit_distance] *)

Section UnsignedLoops.
Import FormatFactory.
Context {S : Type}.
Implicit Types (body : N -> S -> outcome S) (s : S) (i lo bound : N).

Lemma unsigned_wrap_small (x : N) : (x < 4294967296)%N -> unsigned_wrap x = x.
Proof. intros H. unfold unsigned_wrap. apply N.mod_small. exact H. Qed.

Lemma unsigned_wrap_lt (x : N) : (unsigned_wrap x < 4294967296)%N.
Proof. unfold unsigned_wrap. apply N.mod_lt. discriminate. Qed.

Lemma size_t_wrap_small (x : N) : (x < 18446744073709551616)%N -> size_t_wrap x = x.
Proof. intros H. unfold size_t_wrap. apply N.mod_small. exact H. Qed.

Lemma unsigned_pred_pos (x : N) : (0 < x < 4294967296)%N -> unsigned_pred x = (x - 1)%N.
Proof.
  intros H. unfold unsigned_pred, unsigned_wrap.
  replace (x + (2 ^ 32 - 1))%N with (x - 1 + 1 * 2 ^ 32)%N.
  - rewrite N.Div0.mod_add. apply N.mod_small. change (2 ^ 32)%N with 4294967296%N. lia.
  - change (2 ^ 32)%N with 4294967296%N. lia.
Qed.

Lemma size_t_pred_pos (x : N) :
  (0 < x < 18446744073709551616)%N -> size_t_pred x = (x - 1)%N.
Proof.
  intros H. unfold size_t_pred, size_t_wrap.
  replace (x + (2 ^ 64 - 1))%N with (x - 1 + 1 * 2 ^ 64)%N.
  - rewrite N.Div0.mod_add. apply N.mod_small.
    change (2 ^ 64)%N with 18446744073709551616%N. lia.
  - change (2 ^ 64)%N with 18446744073709551616%N. lia.
Qed.

(** A loop whose bound fits the counter runs its body for [lo], ..,
    [bound - 1] and stops, given the fuel for it. *)
Lemma for_unsigned_inv (Inv : N -> S -> Prop) fuel lo bound body s :
  (bound < 4294967296)%N -> (lo <= bound)%N ->
  (N.to_nat (bound - lo) < fuel)%nat ->
  Inv lo s ->
  (forall i s, (lo <= i < bound)%N -> Inv i s ->
     exists s', body i s = Ret s' /\ Inv (i + 1)%N s') ->
  exists s', for_unsigned fuel lo bound body s = Ret s' /\ Inv bound s'.
Proof.
  intros Hbound Hlo Hfuel Hinv Hbody. revert lo s Hlo Hfuel Hinv Hbody.
  induction fuel as [|fuel IH]; intros lo s Hlo Hfuel Hinv Hbody; [lia|].
  simpl. destruct (N.ltb_spec lo bound) as [Hlt|Hge].
  - destruct (Hbody lo s) as (s1 & -> & Hinv1); [lia | exact Hinv |]. simpl.
    rewrite unsigned_wrap_small by lia. apply IH; [lia | lia | exact Hinv1 |].
    intros i s0 Hi. apply Hbody. lia.
  - replace bound with lo by lia. eauto.
Qed.

(** A loop whose bound does not fit the counter never stops: the counter
    wraps before it reaches the bound. *)
Lemma for_unsigned_diverges (Inv : S -> Prop) fuel i bound body s :
  (4294967296 <= bound)%N -> (i < 4294967296)%N ->
  Inv s ->
  (forall i s, (i < bound)%N -> Inv s -> exists s', body i s = Ret s' /\ Inv s') ->
  for_unsigned fuel i bound body s = Diverge.
Proof.
  intros Hbound Hi Hinv Hbody. revert i s Hi Hinv.
  induction fuel as [|fuel IH]; intros i s Hi Hinv; [reflexivity|].
  simpl. destruct (N.ltb_spec i bound) as [Hlt|Hge]; [|lia].
  destruct (Hbody i s Hlt Hinv) as (s1 & -> & Hinv1). simpl.
  apply IH; [apply unsigned_wrap_lt | exact Hinv1].
Qed.

(** A loop whose body always returns either returns or runs out of fuel. *)
Lemma for_unsigned_returns_or_diverges (Inv : S -> Prop) fuel i bound body s :
  Inv s ->
  (forall i s, (i < bound)%N -> Inv s -> exists s', body i s = Ret s' /\ Inv s') ->
  (exists s', for_unsigned fuel i bound body s = Ret s' /\ Inv s') \/
  for_unsigned fuel i bound body s = Diverge.
Proof.
  intros Hinv Hbody. revert i s Hinv.
  induction fuel as [|fuel IH]; intros i s Hinv; [right; reflexivity|].
  simpl. destruct (N.ltb_spec i bound) as [Hlt|Hge]; [|left; eauto].
  destruct (Hbody i s Hlt Hinv) as (s1 & -> & Hinv1). simpl.
  apply IH, Hinv1.
Qed.
End UnsignedLoops.

Section Table.
Import FormatFactory.
Implicit Types (d : matrix) (i j m n v : N).

(** The cell [(i, j)] of the table, when it is inside. *)
Definition entry d i j : option N :=
  match d !! N.to_nat i with
  | Some row => row !! N.to_nat j
  | None => None
  end.

(** [m] rows of [n] cells. *)
Definition shape d m n : Prop :=
  length d = N.to_nat m /\
  forall (k : nat) row, d !! k = Some row -> length row = N.to_nat n.

Lemma shape_replicate m n : shape (replicate (N.to_nat m) (replicate (N.to_nat n) 0%N)) m n.
Proof.
  split; [apply length_replicate|].
  intros k row Hrow. apply lookup_replicate in Hrow as [-> _]. apply length_replicate.
Qed.

Lemma mat_get_entry d i j v : entry d i j = Some v -> mat_get d i j = Ret v.
Proof.
  unfold entry, mat_get. destruct (d !! N.to_nat i) as [row|]; [|discriminate].
  now intros ->.
Qed.

Lemma mat_set_inside d m n i j v :
  shape d m n -> (i < m)%N -> (j < n)%N ->
  exists d',
    mat_set d i j v = Ret d' /\ shape d' m n /\ entry d' i j = Some v /\
    (forall i' j', i' <> i \/ j' <> j -> entry d' i' j' = entry d i' j').
Proof.
  intros [Hrows Hcols] Hi Hj. unfold mat_set.
  destruct (d !! N.to_nat i) as [row|] eqn:Hrow.
  2: { apply lookup_ge_None in Hrow. lia. }
  pose proof (Hcols _ _ Hrow) as Hlen.
  destruct (decide (N.to_nat j < length row)%nat) as [Hlt|]; [|lia].
  eexists. split; [reflexivity|]. split; [|split].
  - split; [now rewrite length_insert|].
    intros k row' Hk. destruct (decide (k = N.to_nat i)) as [->|Hne].
    + rewrite list_lookup_insert_eq in Hk by (apply lookup_lt_Some in Hrow; exact Hrow).
      injection Hk as <-. now rewrite length_insert.
    + rewrite list_lookup_insert_ne in Hk by congruence. eauto.
  - unfold entry.
    rewrite list_lookup_insert_eq by (apply lookup_lt_Some in Hrow; exact Hrow).
    now apply list_lookup_insert_eq.
  - intros i' j' Hne. unfold entry.
    destruct (decide (N.to_nat i = N.to_nat i')) as [Heq|Hne'].
    + rewrite <- Heq.
      rewrite list_lookup_insert_eq by (apply lookup_lt_Some in Hrow; exact Hrow).
      rewrite Hrow. apply list_lookup_insert_ne. lia.
    + now rewrite list_lookup_insert_ne by exact Hne'.
Qed.
End Table.

Section Characters.
Import FormatFactory.

Lemma get_lookup (s : string) (k : nat) : String.get k s = list_ascii_of_string s !! k.
Proof.
  revert k. induction s as [|c s IH]; intros [|k]; simpl; try reflexivity. apply IH.
Qed.

Lemma length_list_ascii (s : string) : length (list_ascii_of_string s) = String.length s.
Proof. induction s; simpl; congruence. Qed.

Lemma char_at_lookup (s : string) (pos : N) (c : ascii) :
  list_ascii_of_string s !! N.to_nat pos = Some c -> char_at s pos = Ret c.
Proof. intros H. unfold char_at. now rewrite get_lookup, H. Qed.
End Characters.

Section EditDistanceTable.
Import FormatFactory.
Implicit Types (la lb : list ascii) (d : matrix) (i j m n : N).

(** The value the table holds at [(i, j)]: the recurrence of the code on the
    first [i] characters of one string and the first [j] of the other, read
    from their last character back. *)
Definition prefix_distance la lb i j : N :=
  N.of_nat (wagner_fischer tolower (reverse (take (N.to_nat i) la))
                                   (reverse (take (N.to_nat j) lb))).

Lemma prefix_distance_row0 la lb j :
  (N.to_nat j <= length lb)%nat -> prefix_distance la lb 0 j = j.
Proof.
  intros Hj. unfold prefix_distance. simpl.
  rewrite length_reverse, length_take. lia.
Qed.

Lemma prefix_distance_col0 la lb i :
  (N.to_nat i <= length la)%nat -> prefix_distance la lb i 0 = i.
Proof.
  intros Hi. unfold prefix_distance.
  replace (reverse (take (N.to_nat 0) lb)) with (@nil ascii) by reflexivity.
  rewrite wagner_fischer_nil_r, length_reverse, length_take. lia.
Qed.

Lemma reverse_take_succ (l : list ascii) (k : N) (x : ascii) :
  (0 < k)%N -> l !! N.to_nat (k - 1) = Some x ->
  reverse (take (N.to_nat k) l) = x :: reverse (take (N.to_nat (k - 1)) l).
Proof.
  intros Hk Hx. replace (N.to_nat k) with (S (N.to_nat (k - 1))) by lia.
  rewrite (take_S_r _ _ _ Hx). apply reverse_snoc.
Qed.

Lemma prefix_distance_step la lb i j (x y : ascii) :
  (0 < i)%N -> (0 < j)%N ->
  la !! N.to_nat (i - 1) = Some x -> lb !! N.to_nat (j - 1) = Some y ->
  prefix_distance la lb i j =
  if decide (tolower x = tolower y) then prefix_distance la lb (i - 1) (j - 1)
  else N.min (N.min (prefix_distance la lb (i - 1) j + 1)
                    (prefix_distance la lb i (j - 1) + 1))
             (prefix_distance la lb (i - 1) (j - 1) + 1).
Proof.
  intros Hi Hj Hx Hy. unfold prefix_distance.
  rewrite (reverse_take_succ la i x Hi Hx), (reverse_take_succ lb j y Hj Hy).
  rewrite wagner_fischer_cons. unfold same.
  destruct (decide (tolower x = tolower y)) as [Heq|Hne].
  - now rewrite bool_decide_eq_true_2 by exact Heq.
  - rewrite bool_decide_eq_false_2 by exact Hne. lia.
Qed.

Lemma prefix_distance_bound la lb i j : (prefix_distance la lb i j <= N.max i j)%N.
Proof.
  unfold prefix_distance. rewrite wagner_fischer_levenshtein.
  pose proof (levenshtein_le_max tolower (reverse (take (N.to_nat i) la))
                (reverse (take (N.to_nat j) lb))) as H.
  rewrite !length_reverse, !length_take in H. lia.
Qed.

Lemma prefix_distance_full la lb :
  prefix_distance la lb (N.of_nat (length la)) (N.of_nat (length lb)) =
  N.of_nat (levenshtein tolower la lb).
Proof.
  unfold prefix_distance. rewrite !Nat2N.id, !take_ge by lia.
  now rewrite wagner_fischer_levenshtein, levenshtein_reverse.
Qed.

(** The body of the innermost loop. *)
Definition fill_cell (first second : string) (j i : N) d : outcome matrix :=
  a ← char_at first (unsigned_pred i);
  b ← char_at second (unsigned_pred j);
  if decide (tolower a = tolower b) then
    v ← mat_get d (unsigned_pred i) (unsigned_pred j);
    mat_set d i j v
  else
    x ← mat_get d (unsigned_pred i) j;
    y ← mat_get d i (unsigned_pred j);
    z ← mat_get d (unsigned_pred i) (unsigned_pred j);
    mat_set d i j (N.min (N.min (unsigned_wrap (x + 1)) (unsigned_wrap (y + 1)))
                         (unsigned_wrap (z + 1))).

Lemma edit_distance_unfold fuel (first second : string) :
  edit_distance fuel first second =
  (let m := size_t_wrap (N.of_nat (String.length first) + 1) in
   let n := size_t_wrap (N.of_nat (String.length second) + 1) in
   d0 ← for_unsigned fuel 0 m (fun i d => mat_set d i 0 i)
          (replicate (N.to_nat m) (replicate (N.to_nat n) 0%N));
   d1 ← for_unsigned fuel 0 n (fun j d => mat_set d 0 j j) d0;
   d2 ← for_unsigned fuel 1 n
          (fun j d => for_unsigned fuel 1 m (fill_cell first second j) d) d1;
   mat_get d2 (size_t_pred m) (size_t_pred n)).
Proof. reflexivity. Qed.

(** The cells that hold their final value when the loops reach column [j]
    and row [i]. *)
Definition done (j i i' j' : N) : Prop :=
  i' = 0%N \/ j' = 0%N \/ (j' < j)%N \/ (j' = j /\ (i' < i)%N).

Definition filled la lb m n (j i : N) d : Prop :=
  shape d m n /\
  forall i' j', (i' < m)%N -> (j' < n)%N -> done j i i' j' ->
    entry d i' j' = Some (prefix_distance la lb i' j').

Lemma fill_cell_correct (first second : string) m n j i d :
  m = (N.of_nat (String.length first) + 1)%N ->
  n = (N.of_nat (String.length second) + 1)%N ->
  (m < 4294967296)%N -> (n < 4294967296)%N ->
  (1 <= i < m)%N -> (1 <= j < n)%N ->
  filled (list_ascii_of_string first) (list_ascii_of_string second) m n j i d ->
  exists d',
    fill_cell first second j i d = Ret d' /\
    filled (list_ascii_of_string first) (list_ascii_of_string second) m n j (i + 1) d'.
Proof.
  intros Hm Hn Hmlt Hnlt Hi Hj [Hshape Hfilled].
  set (la := list_ascii_of_string first) in *.
  set (lb := list_ascii_of_string second) in *.
  assert (Hla : length la = String.length first) by apply length_list_ascii.
  assert (Hlb : length lb = String.length second) by apply length_list_ascii.
  destruct (lookup_lt_is_Some_2 la (N.to_nat (i - 1))) as [x Hx]; [lia|].
  destruct (lookup_lt_is_Some_2 lb (N.to_nat (j - 1))) as [y Hy]; [lia|].
  unfold fill_cell.
  rewrite !unsigned_pred_pos by lia.
  rewrite (char_at_lookup first _ x Hx), (char_at_lookup second _ y Hy). simpl.
  assert (Hdiag : entry d (i - 1) (j - 1) = Some (prefix_distance la lb (i - 1) (j - 1))).
  { apply Hfilled; [lia | lia |]. right; right; left. lia. }
  assert (Hup : entry d (i - 1) j = Some (prefix_distance la lb (i - 1) j)).
  { apply Hfilled; [lia | lia |]. right; right; right. lia. }
  assert (Hleft : entry d i (j - 1) = Some (prefix_distance la lb i (j - 1))).
  { apply Hfilled; [lia | lia |]. right; right; left. lia. }
  pose proof (prefix_distance_step la lb i j x y ltac:(lia) ltac:(lia) Hx Hy) as Hstep.
  pose proof (prefix_distance_bound la lb (i - 1) (j - 1)) as Bdiag.
  pose proof (prefix_distance_bound la lb (i - 1) j) as Bup.
  pose proof (prefix_distance_bound la lb i (j - 1)) as Bleft.
  assert (Hset : forall v, v = prefix_distance la lb i j ->
            exists d', mat_set d i j v = Ret d' /\ filled la lb m n j (i + 1) d').
  { intros v ->.
    destruct (mat_set_inside d m n i j (prefix_distance la lb i j) Hshape)
      as (d' & Hrun & Hshape' & Hnew & Hold); [lia | lia |].
    exists d'. split; [exact Hrun|]. split; [exact Hshape'|].
    intros i' j' Hi' Hj' Hdone.
    destruct (N.eq_dec i' i) as [->|Hne]; [destruct (N.eq_dec j' j) as [->|Hne]|].
    - exact Hnew.
    - rewrite Hold by auto. apply Hfilled; [lia | lia |].
      unfold done in *. lia.
    - rewrite Hold by auto. apply Hfilled; [lia | lia |].
      unfold done in *. lia. }
  destruct (decide (tolower x = tolower y)) as [Heq|Hne].
  - rewrite (mat_get_entry _ _ _ _ Hdiag). simpl. apply Hset. now rewrite Hstep.
  - rewrite (mat_get_entry _ _ _ _ Hup), (mat_get_entry _ _ _ _ Hleft),
      (mat_get_entry _ _ _ _ Hdiag). simpl.
    apply Hset. rewrite Hstep, !unsigned_wrap_small by lia. reflexivity.
Qed.

Lemma filled_next_column la lb m n j d :
  filled la lb m n j m d -> filled la lb m n (j + 1) 1 d.
Proof.
  intros [Hshape Hfilled]. split; [exact Hshape|].
  intros i' j' Hi' Hj' Hdone. apply Hfilled; [exact Hi' | exact Hj' |].
  unfold done in *. lia.
Qed.

(** First loop: column 0 holds the row numbers. *)
Lemma first_column_loop fuel m n :
  (m < 4294967296)%N -> (0 < n)%N -> (N.to_nat m < fuel)%nat ->
  exists d,
    for_unsigned fuel 0 m (fun i d => mat_set d i 0 i)
      (replicate (N.to_nat m) (replicate (N.to_nat n) 0%N)) = Ret d /\
    shape d m n /\ forall i', (i' < m)%N -> entry d i' 0 = Some i'.
Proof.
  intros Hm Hn Hfuel.
  destruct (for_unsigned_inv
              (fun i d => shape d m n /\ forall i', (i' < i)%N -> entry d i' 0 = Some i')
              fuel 0 m (fun i d => mat_set d i 0 i)
              (replicate (N.to_nat m) (replicate (N.to_nat n) 0%N)))
    as (d & Hrun & Hshape & Hcol); [exact Hm | lia | lia | | | eauto].
  - split; [apply shape_replicate | intros; lia].
  - intros i d [Hi1 Hi2] [Hshape Hcol].
    destruct (mat_set_inside d m n i 0 i Hshape Hi2 Hn)
      as (d' & Hrun & Hshape' & Hnew & Hold).
    exists d'. split; [exact Hrun|]. split; [exact Hshape'|].
    intros i' Hi'. destruct (N.eq_dec i' i) as [->|Hne]; [exact Hnew|].
    rewrite Hold by auto. apply Hcol. lia.
Qed.

(** Second loop: row 0 holds the column numbers, column 0 is kept. *)
Lemma first_row_loop fuel m n d :
  (n < 4294967296)%N -> (0 < m)%N -> (N.to_nat n < fuel)%nat ->
  shape d m n -> (forall i', (i' < m)%N -> entry d i' 0 = Some i') ->
  exists d',
    for_unsigned fuel 0 n (fun j d => mat_set d 0 j j) d = Ret d' /\
    shape d' m n /\
    (forall i', (i' < m)%N -> entry d' i' 0 = Some i') /\
    (forall j', (j' < n)%N -> entry d' 0 j' = Some j').
Proof.
  intros Hn Hm Hfuel Hshape Hcol.
  destruct (for_unsigned_inv
              (fun j d => shape d m n /\
                 (forall i', (i' < m)%N -> entry d i' 0 = Some i') /\
                 (forall j', (j' < j)%N -> entry d 0 j' = Some j'))
              fuel 0 n (fun j d => mat_set d 0 j j) d)
    as (d' & Hrun & Hshape' & Hcol' & Hrow'); [exact Hn | lia | lia | | | eauto].
  - split; [exact Hshape|]. split; [exact Hcol | intros; lia].
  - intros j d0 [Hj1 Hj2] (Hshape0 & Hcol0 & Hrow0).
    destruct (mat_set_inside d0 m n 0 j j Hshape0 Hm Hj2)
      as (d' & Hrun & Hshape' & Hnew & Hold).
    exists d'. split; [exact Hrun|]. split; [exact Hshape'|]. split.
    + intros i' Hi'. destruct (N.eq_dec i' 0%N) as [->|Hne].
      * destruct (N.eq_dec j 0%N) as [->|Hne]; [exact Hnew|].
        rewrite Hold by auto. apply Hcol0. exact Hi'.
      * rewrite Hold by auto. apply Hcol0. exact Hi'.
    + intros j' Hj'. destruct (N.eq_dec j' j) as [->|Hne]; [exact Hnew|].
      rewrite Hold by auto. apply Hrow0. lia.
Qed.

(** Third loop: column by column, every cell gets the value of the
    recurrence. *)
Lemma columns_loop fuel (first second : string) m n d :
  m = (N.of_nat (String.length first) + 1)%N ->
  n = (N.of_nat (String.length second) + 1)%N ->
  (m < 4294967296)%N -> (n < 4294967296)%N ->
  (N.to_nat m < fuel)%nat -> (N.to_nat n < fuel)%nat ->
  filled (list_ascii_of_string first) (list_ascii_of_string second) m n 1 1 d ->
  exists d',
    for_unsigned fuel 1 n
      (fun j d => for_unsigned fuel 1 m (fill_cell first second j) d) d = Ret d' /\
    filled (list_ascii_of_string first) (list_ascii_of_string second) m n n 1 d'.
Proof.
  intros Hm Hn Hmlt Hnlt Hfm Hfn Hstart.
  apply (for_unsigned_inv
           (fun j d => filled (list_ascii_of_string first)
                         (list_ascii_of_string second) m n j 1 d));
    [exact Hnlt | lia | lia | exact Hstart |].
  intros j d0 Hj Hcolumn.
  destruct (for_unsigned_inv
              (fun i d => filled (list_ascii_of_string first)
                            (list_ascii_of_string second) m n j i d)
              fuel 1 m (fill_cell first second j) d0)
    as (d' & Hrun & Hdone); [exact Hmlt | lia | lia | exact Hcolumn | |].
  - intros i d1 Hi Hcell.
    apply (fill_cell_correct first second m n j i d1); auto.
  - exists d'. split; [exact Hrun | apply filled_next_column, Hdone].
Qed.

(** Within the range of [unsigned], and with the fuel for its loops,
    [edit_distance] returns the classic edit distance of its arguments
    compared up to case. *)
Lemma edit_distance_levenshtein fuel (first second : string) :
  (N.of_nat (String.length first) + 1 < 4294967296)%N ->
  (N.of_nat (String.length second) + 1 < 4294967296)%N ->
  (S (String.length first) < fuel)%nat -> (S (String.length second) < fuel)%nat ->
  edit_distance fuel first second =
  Ret (N.of_nat (levenshtein tolower (list_ascii_of_string first)
                   (list_ascii_of_string second))).
Proof.
  intros Hm Hn Hfm Hfn. rewrite edit_distance_unfold.
  rewrite !size_t_wrap_small by lia.
  set (m := (N.of_nat (String.length first) + 1)%N) in *.
  set (n := (N.of_nat (String.length second) + 1)%N) in *.
  set (la := list_ascii_of_string first).
  set (lb := list_ascii_of_string second).
  assert (Hla : length la = String.length first) by apply length_list_ascii.
  assert (Hlb : length lb = String.length second) by apply length_list_ascii.
  cbv zeta.
  destruct (first_column_loop fuel m n) as (d0 & -> & Hshape0 & Hcol0); [lia | lia | lia |].
  simpl.
  destruct (first_row_loop fuel m n d0) as (d1 & -> & Hshape1 & Hcol1 & Hrow1);
    [lia | lia | lia | exact Hshape0 | exact Hcol0 |].
  simpl.
  destruct (columns_loop fuel first second m n d1) as (d2 & -> & Hshape2 & Hfilled);
    [reflexivity | reflexivity | lia | lia | lia | lia | |].
  { split; [exact Hshape1|]. intros i' j' Hi' Hj' Hdone. fold la lb.
    assert (Hcase : i' = 0%N \/ j' = 0%N) by (unfold done in Hdone; lia).
    destruct (N.eq_dec j' 0%N) as [->|Hne].
    - rewrite prefix_distance_col0 by lia. apply Hcol1, Hi'.
    - destruct Hcase as [->|?]; [|contradiction].
      rewrite prefix_distance_row0 by lia. apply Hrow1, Hj'. }
  simpl. rewrite !size_t_pred_pos by lia.
  fold la lb in Hfilled.
  rewrite (mat_get_entry d2 _ _ (prefix_distance la lb (m - 1) (n - 1))).
  - f_equal. replace (m - 1)%N with (N.of_nat (length la)) by lia.
    replace (n - 1)%N with (N.of_nat (length lb)) by lia.
    apply prefix_distance_full.
  - apply Hfilled; [lia | lia |]. unfold done. lia.
Qed.

(** Outside the range of [unsigned] the first or the second loop never
    stops. *)
Lemma edit_distance_out_of_range fuel (first second : string) :
  (N.of_nat (String.length first) + 1 < 18446744073709551616)%N ->
  (N.of_nat (String.length second) + 1 < 18446744073709551616)%N ->
  (4294967296 <= N.of_nat (String.length first) + 1)%N \/
  (4294967296 <= N.of_nat (String.length second) + 1)%N ->
  edit_distance fuel first second = Diverge.
Proof.
  intros Hm Hn Hbig. rewrite edit_distance_unfold.
  rewrite !size_t_wrap_small by lia.
  set (m := (N.of_nat (String.length first) + 1)%N) in *.
  set (n := (N.of_nat (String.length second) + 1)%N) in *.
  cbv zeta.
  assert (Hbody1 : forall i d, (i < m)%N -> shape d m n ->
            exists d', mat_set d i 0 i = Ret d' /\ shape d' m n).
  { intros i d Hi Hshape.
    destruct (mat_set_inside d m n i 0 i Hshape Hi) as (d' & Hrun & Hshape' & _);
      [lia | eauto]. }
  assert (Hbody2 : forall j d, (j < n)%N -> shape d m n ->
            exists d', mat_set d 0 j j = Ret d' /\ shape d' m n).
  { intros j d Hj Hshape.
    destruct (mat_set_inside d m n 0 j j Hshape) as (d' & Hrun & Hshape' & _);
      [lia | exact Hj | eauto]. }
  destruct (N.le_gt_cases 4294967296 m) as [Hmbig|Hmsmall].
  - rewrite (for_unsigned_diverges (fun d => shape d m n));
      [reflexivity | exact Hmbig | lia | apply shape_replicate | exact Hbody1].
  - destruct (for_unsigned_returns_or_diverges (fun d => shape d m n) fuel 0 m
                (fun i d => mat_set d i 0 i)
                (replicate (N.to_nat m) (replicate (N.to_nat n) 0%N)))
      as [(d0 & -> & Hshape0)| ->]; [apply shape_replicate | exact Hbody1 | | reflexivity].
    simpl.
    rewrite (for_unsigned_diverges (fun d => shape d m n));
      [reflexivity | lia | lia | exact Hshape0 | exact Hbody2].
Qed.
End EditDistanceTable.


(** ** The edit distance of the registry *)

Section EditDistanceProperties.
Import FormatFactory.
Implicit Types (a b c s : string).

(** The strings whose length plus one fits an [unsigned]. *)
Definition fits_unsigned s : Prop :=
  (N.of_nat (String.length s) + 1 < 4294967296)%N.

(** The classic edit distance of two strings compared up to case. *)
Definition distance a b : nat :=
  levenshtein tolower (list_ascii_of_string a) (list_ascii_of_string b).

(** A string of [2^32 - 1] characters. *)
Definition long_name : string :=
  string_of_list_ascii (replicate (N.to_nat 4294967295) "a"%char).

Lemma length_string_of_list (l : list ascii) :
  String.length (string_of_list_ascii l) = length l.
Proof. induction l; simpl; congruence. Qed.

Lemma long_name_length : N.of_nat (String.length long_name) = 4294967295%N.
Proof.
  unfold long_name. rewrite length_string_of_list, length_replicate. apply N2Nat.id.
Qed.

Lemma edit_distance_long_name_r fuel a :
  fits_unsigned a -> edit_distance fuel a long_name = Diverge.
Proof.
  intros Ha. unfold fits_unsigned in Ha.
  apply edit_distance_out_of_range; rewrite ?long_name_length; lia.
Qed.

Lemma edit_distance_long_name_l fuel b :
  fits_unsigned b -> edit_distance fuel long_name b = Diverge.
Proof.
  intros Hb. unfold fits_unsigned in Hb.
  apply edit_distance_out_of_range; rewrite ?long_name_length; lia.
Qed.

(** C5, as the code has it.  On strings whose length plus one fits an
    [unsigned], and with the fuel for its loops, [edit_distance] returns the
    classic edit distance with unit costs and comparison up to case; on
    such strings it is symmetric and satisfies the triangle inequality; and
    it returns 0 on "gro", "gro" and 2 on "xyz", "xtc". *)
Theorem edit_distance_metric :
  (forall fuel a b, fits_unsigned a -> fits_unsigned b ->
     (S (String.length a) < fuel)%nat -> (S (String.length b) < fuel)%nat ->
     edit_distance fuel a b = Ret (N.of_nat (distance a b))) /\
  (forall fuel a b, fits_unsigned a -> fits_unsigned b ->
     (S (String.length a) < fuel)%nat -> (S (String.length b) < fuel)%nat ->
     exists v, edit_distance fuel a b = Ret v /\ edit_distance fuel b a = Ret v) /\
  (forall fuel a b c, fits_unsigned a -> fits_unsigned b -> fits_unsigned c ->
     (S (String.length a) < fuel)%nat -> (S (String.length b) < fuel)%nat ->
     (S (String.length c) < fuel)%nat ->
     exists x y z,
       edit_distance fuel a b = Ret x /\ edit_distance fuel b c = Ret y /\
       edit_distance fuel a c = Ret z /\ (z <= x + y)%N) /\
  edit_distance 5 "gro" "gro" = Ret 0%N /\
  edit_distance 5 "xyz" "xtc" = Ret 2%N.
Proof.
  split; [|split; [|split; [|split]]].
  - intros fuel a b Ha Hb Hfa Hfb. now apply edit_distance_levenshtein.
  - intros fuel a b Ha Hb Hfa Hfb. exists (N.of_nat (distance a b)).
    rewrite !edit_distance_levenshtein by assumption.
    split; [reflexivity|]. unfold distance. now rewrite levenshtein_sym.
  - intros fuel a b c Ha Hb Hc Hfa Hfb Hfc.
    exists (N.of_nat (distance a b)), (N.of_nat (distance b c)), (N.of_nat (distance a c)).
    rewrite !edit_distance_levenshtein by assumption.
    repeat split. unfold distance.
    pose proof (levenshtein_triangle tolower (list_ascii_of_string a)
                  (list_ascii_of_string b) (list_ascii_of_string c)). lia.
  - reflexivity.
  - reflexivity.
Qed.

(** C9, as the code has it.  For a string whose length plus one fits an
    [unsigned], [edit_distance] between it and the empty string, in either
    order, returns its length. *)
Theorem edit_distance_empty fuel s :
  fits_unsigned s -> (S (String.length s) < fuel)%nat ->
  edit_distance fuel "" s = Ret (N.of_nat (String.length s)) /\
  edit_distance fuel s "" = Ret (N.of_nat (String.length s)).
Proof.
  intros Hs Hfuel.
  rewrite !edit_distance_levenshtein; try assumption; try (simpl; lia);
    try (unfold fits_unsigned in *; simpl; lia).
  simpl list_ascii_of_string. rewrite levenshtein_nil_r. simpl levenshtein.
  now rewrite length_list_ascii.
Qed.
End EditDistanceProperties.

Section EditDistanceWitnesses.
Import FormatFactory.

Lemma edit_distance_metric_witness :
  edit_distance 9 "LAMMPS" "lammps" = Ret (N.of_nat (distance "LAMMPS" "lammps")) /\
  (exists v, edit_distance 9 "Tinker" "TNG" = Ret v /\ edit_distance 9 "TNG" "Tinker" = Ret v) /\
  (exists x y z,
     edit_distance 9 "PDB" "SDF" = Ret x /\ edit_distance 9 "SDF" "SMI" = Ret y /\
     edit_distance 9 "PDB" "SMI" = Ret z /\ (z <= x + y)%N).
Proof.
  destruct edit_distance_metric as (Hclassic & Hsym & Htriangle & _).
  split; [|split].
  - apply Hclassic; unfold fits_unsigned; simpl; lia.
  - apply Hsym; unfold fits_unsigned; simpl; lia.
  - apply Htriangle; unfold fits_unsigned; simpl; lia.
Defined.

Lemma edit_distance_empty_witness :
  edit_distance 9 "" "Tinker" = Ret 6%N /\ edit_distance 9 "Tinker" "" = Ret 6%N.
Proof. apply (edit_distance_empty 9 "Tinker"); unfold fits_unsigned; simpl; lia. Defined.

(** C5 as stated fails on a name of [2^32 - 1] characters: the call never
    returns, so it returns neither the classic distance nor anything that
    could enter the triangle inequality. *)
Lemma edit_distance_metric_fails_on_long_name :
  ~ (exists fuel v, edit_distance fuel long_name "gro" = Ret v).
Proof.
  intros (fuel & v & Hrun).
  rewrite edit_distance_long_name_l in Hrun; [discriminate Hrun|].
  unfold fits_unsigned. simpl. lia.
Qed.

(** C9 as stated fails on a name of [2^32 - 1] characters: the call on
    the empty string and that name never returns its length. *)
Lemma edit_distance_empty_fails_on_long_name :
  ~ (exists fuel,
       edit_distance fuel "" long_name = Ret (N.of_nat (String.length long_name))).
Proof.
  intros (fuel & Hrun).
  rewrite edit_distance_long_name_r in Hrun; [discriminate Hrun|].
  unfold fits_unsigned. simpl. lia.
Qed.
End EditDistanceWitnesses.


(** ** The format registry: lookup by name *)

Section LookupProperties.
Import FormatFactory.
Context {Format MemoryBuffer Mode Compression : Type}.
Abbreviation RegisteredFormat'' := (RegisteredFormat Format MemoryBuffer Mode Compression).
Implicit Types (formats : list RegisteredFormat'') (f g : RegisteredFormat'')
  (q : string) (suggestions : list string).

Lemma append_assoc (a b c : string) : ((a ++ b) ++ c)%string = (a ++ (b ++ c))%string.
Proof.
  induction a as [|x a IH]; [reflexivity|].
  change (String x ((a ++ b) ++ c) = String x (a ++ (b ++ c)))%string. now rewrite IH.
Qed.

Lemma append_nil_r (a : string) : (a ++ "")%string = a.
Proof.
  induction a as [|x a IH]; [reflexivity|].
  change (String x (a ++ "") = String x a)%string. now rewrite IH.
Qed.

(** The spec's words: the message "lists every registered name within edit
    distance < 4 of the query (case-insensitive comparison), joined as a
    human-readable "did you mean A or B?" suggestion list (empty if none
    qualify)". *)
Definition suggested q (candidate : string) : bool :=
  (distance q candidate <? 4)%nat.
Definition quoted (s : string) : string := (" '" ++ s ++ "'")%string.
Definition did_you_mean suggestions : string :=
  match suggestions with
  | [] => ""
  | _ :: _ => (", did you mean" ++ String.concat " or" (map quoted suggestions) ++ "?")%string
  end.
Definition not_found_message q suggestions : string :=
  (("can not find a format named '" ++ q ++ "'") ++ did_you_mean suggestions)%string.

(** What the printing loop adds after the first suggestion. *)
Fixpoint or_list suggestions : string :=
  match suggestions with
  | [] => ""
  | s :: rest => (" or" ++ quoted s ++ or_list rest)%string
  end.

Lemma print_suggestions_rest suggestions (message : string) :
  print_suggestions suggestions false message = (message ++ or_list suggestions)%string.
Proof.
  revert message. induction suggestions as [|s rest IH]; intros message; simpl.
  - now rewrite append_nil_r.
  - rewrite IH. fold (quoted s). now rewrite !append_assoc.
Qed.

Lemma concat_or_list s suggestions :
  String.concat " or" (map quoted (s :: suggestions)) =
  (quoted s ++ or_list suggestions)%string.
Proof.
  revert s. induction suggestions as [|s' rest IH]; intros s.
  - simpl. now rewrite append_nil_r.
  - change (String.concat " or" (map quoted (s :: s' :: rest)))
      with (quoted s ++ " or" ++ String.concat " or" (map quoted (s' :: rest)))%string.
    now rewrite IH.
Qed.

Lemma suggest_names_message fuel formats q suggestions :
  collect_suggestions fuel formats q [] = Ret suggestions ->
  suggest_names fuel formats q = Ret (not_found_message q suggestions).
Proof.
  intros Hcollect. unfold suggest_names. rewrite Hcollect. simpl. f_equal.
  unfold not_found_message. destruct suggestions as [|s rest].
  - simpl. now rewrite append_nil_r.
  - unfold did_you_mean. rewrite concat_or_list.
    simpl print_suggestions. rewrite print_suggestions_rest. fold (quoted s).
    now rewrite !append_assoc.
Qed.

Lemma suggested_code q (candidate : string) :
  (N.of_nat (distance q candidate) <? 4)%N = suggested q candidate.
Proof.
  unfold suggested.
  destruct (N.ltb_spec (N.of_nat (distance q candidate)) 4),
           (Nat.ltb_spec (distance q candidate) 4); first [reflexivity | lia].
Qed.

(** The strings and the fuel for which every call of [edit_distance] made
    by a lookup of [q] returns. *)
Definition lookup_in_range fuel formats q : Prop :=
  fits_unsigned q /\ (S (String.length q) < fuel)%nat /\
  forall f, In f formats ->
    fits_unsigned (format_name f) /\ (S (String.length (format_name f)) < fuel)%nat.

Lemma collect_suggestions_filter fuel formats q suggestions :
  lookup_in_range fuel formats q ->
  collect_suggestions fuel formats q suggestions =
  Ret (suggestions ++ List.filter (suggested q) (map format_name formats)).
Proof.
  intros (Hq & Hfq & Hall). revert suggestions.
  induction formats as [|f rest IH]; intros suggestions; simpl.
  - now rewrite app_nil_r.
  - destruct (Hall f (or_introl eq_refl)) as [Hf Hff].
    rewrite edit_distance_levenshtein by assumption. simpl.
    fold (distance q (format_name f)). rewrite suggested_code.
    rewrite IH by (intros g Hg; apply Hall; right; exact Hg).
    destruct (suggested q (format_name f)); [|reflexivity].
    now rewrite <- app_assoc.
Qed.

Lemma name_not_found fuel formats q :
  (forall f, In f formats -> format_name f <> q) ->
  lookup_in_range fuel formats q ->
  name fuel q formats =
  (Throw (FormatError
     (not_found_message q (List.filter (suggested q) (map format_name formats)))),
   formats).
Proof.
  intros Habsent Hrange. unfold name, bind, get, find_by_name.
  rewrite find_by_name_from_key, find_from_absent by exact Habsent.
  rewrite N.eqb_refl. unfold pure.
  rewrite (suggest_names_message fuel formats q
             (List.filter (suggested q) (map format_name formats))).
  - reflexivity.
  - now rewrite collect_suggestions_filter.
Qed.

(** With a query outside the range of [unsigned] and a first entry inside
    it, a lookup that finds no exact match never returns and never
    throws. *)
Lemma name_out_of_range fuel f formats q :
  (forall g, In g (f :: formats) -> format_name g <> q) ->
  fits_unsigned (format_name f) ->
  (4294967296 <= N.of_nat (String.length q) + 1 < 18446744073709551616)%N ->
  name fuel q (f :: formats) = (Diverge, f :: formats).
Proof.
  intros Habsent Hf Hq. unfold name, bind, get, find_by_name.
  rewrite find_by_name_from_key, find_from_absent by exact Habsent.
  rewrite N.eqb_refl. unfold pure, suggest_names.
  cbn [collect_suggestions].
  rewrite edit_distance_out_of_range; [reflexivity | lia | | lia].
  unfold fits_unsigned in Hf. lia.
Qed.

(** C3, as the code has it.  When an entry is called [q], exactly and with
    its case, [name] returns the creator of the first such entry.  When no
    entry is called [q], and [q] and the registered names have a length
    that fits an [unsigned], [name] throws a [FormatError] whose message
    names [q] and then lists, in their order in the table and joined by
    "or" after "did you mean", the registered names whose edit distance
    to [q] up to case is below 4; a name is listed exactly when it is
    registered and within that distance, and when none is the message stops
    after the query. *)
Theorem name_spec fuel formats q :
  vector_size_ok formats ->
  ((exists f, In f formats /\ format_name f = q) ->
   exists (k : nat) f,
     formats !! k = Some f /\ format_name f = q /\
     (forall (j : nat) g, (j < k)%nat -> formats !! j = Some g -> format_name g <> q) /\
     name fuel q formats = (Ret (creator f), formats)) /\
  ((forall f, In f formats -> format_name f <> q) ->
   lookup_in_range fuel formats q ->
   let suggestions := List.filter (suggested q) (map format_name formats) in
   name fuel q formats = (Throw (FormatError (not_found_message q suggestions)), formats) /\
   (forall candidate, In candidate suggestions <->
      In candidate (map format_name formats) /\ (distance q candidate < 4)%nat) /\
   ((forall f, In f formats -> (4 <= distance q (format_name f))%nat) ->
    suggestions = [] /\
    not_found_message q suggestions =
      ("can not find a format named '" ++ q ++ "'")%string)).
Proof.
  intros Hsize. split.
  - intros Hex.
    destruct (find_by_name_first formats q Hsize Hex)
      as (k & f & Hfind & Hne & Hk & Hf & Hfirst).
    exists k, f. repeat split; auto.
    apply (name_found fuel formats q k f Hfind Hne Hk).
  - intros Habsent Hrange suggestions. split; [now apply name_not_found|]. split.
    + intros candidate. unfold suggestions, suggested.
      rewrite filter_In, Nat.ltb_lt. reflexivity.
    + intros Hfar.
      assert (Hnil : suggestions = []).
      { unfold suggestions. clear -Hfar. induction formats as [|f rest IH]; [reflexivity|].
        simpl. unfold suggested at 1.
        destruct (Nat.ltb_spec (distance q (format_name f)) 4) as [Hlt|_].
        - specialize (Hfar f (or_introl eq_refl)). lia.
        - apply IH. intros g Hg. apply Hfar. right. exact Hg. }
      split; [exact Hnil|]. rewrite Hnil. unfold not_found_message. simpl.
      apply append_nil_r.
Qed.
End LookupProperties.

Section RegistryWitnesses.
Import FormatFactory.

Definition sample_info (name extension : string) : FormatInfo :=
  {| FormatInfo.name := name; FormatInfo.extension := extension;
     FormatInfo.description := "" |}.
Definition sample_creator : format_creator_t unit unit unit := fun _ _ _ => Ret tt.
Definition sample_format (name extension : string) : RegisteredFormat unit unit unit unit :=
  {| info := sample_info name extension;
     creator := sample_creator;
     memory_stream_creator := fun _ _ _ => Ret tt |}.
Definition sample_registry : list (RegisteredFormat unit unit unit unit) :=
  [sample_format "XYZ" ".xyz"; sample_format "PDB" ".pdb"; sample_format "Tinker" ""].

Lemma sample_registry_size : vector_size_ok sample_registry.
Proof. unfold vector_size_ok, SENTINEL_INDEX. simpl. lia. Qed.

Lemma sample_gro_fresh :
  FormatInfo.name (sample_info "GRO" ".gro") <> "" /\
  ~ name_taken sample_registry (sample_info "GRO" ".gro") /\
  ~ extension_taken sample_registry (sample_info "GRO" ".gro").
Proof.
  split; [discriminate|]. split.
  - intros (f & Hin & Hf). simpl in Hin.
    destruct Hin as [<-|[<-|[<-|[]]]]; discriminate Hf.
  - intros (_ & f & Hin & Hf). simpl in Hin.
    destruct Hin as [<-|[<-|[<-|[]]]]; discriminate Hf.
Qed.

Lemma register_format_spec_witness :
  (exists msg,
     register_format (sample_info "PDB" ".ent") sample_creator (fun _ _ _ => Ret tt)
       sample_registry = (Throw (FormatError msg), sample_registry)) /\
  (exists msg,
     register_format (sample_info "Protein" ".pdb") sample_creator (fun _ _ _ => Ret tt)
       sample_registry = (Throw (FormatError msg), sample_registry)) /\
  register_format (sample_info "GRO" ".gro") sample_creator (fun _ _ _ => Ret tt)
    sample_registry =
  (Ret tt, sample_registry ++ [sample_format "GRO" ".gro"]).
Proof.
  split; [|split].
  - apply (proj1 (register_format_spec (sample_info "PDB" ".ent") sample_creator
                    (fun _ _ _ => Ret tt) sample_registry sample_registry_size)).
    right; left. exists (sample_format "PDB" ".pdb").
    split; [right; left; reflexivity | reflexivity].
  - apply (proj1 (register_format_spec (sample_info "Protein" ".pdb") sample_creator
                    (fun _ _ _ => Ret tt) sample_registry sample_registry_size)).
    right; right. split; [discriminate|]. exists (sample_format "PDB" ".pdb").
    split; [right; left; reflexivity | reflexivity].
  - destruct sample_gro_fresh as (Hname & Hfree & Hext).
    apply (proj1 (proj2 (register_format_spec (sample_info "GRO" ".gro") sample_creator
                    (fun _ _ _ => Ret tt) sample_registry sample_registry_size))
             Hname Hfree Hext).
Defined.

Lemma register_format_no_memory_spec_witness :
  exists formats' memory_stream,
    register_format_no_memory (sample_info "GRO" ".gro") sample_creator sample_registry =
      (Ret tt, formats') /\
    FormatFactory.memory_stream 0 "GRO" formats' = (Ret memory_stream, formats') /\
    forall buffer mode compression,
      memory_stream buffer mode compression =
      Throw (FormatError "in-memory IO is not supported for the 'GRO' format").
Proof.
  destruct sample_gro_fresh as (Hname & Hfree & Hext).
  exact (register_format_no_memory_spec 0 (sample_info "GRO" ".gro") sample_creator
           sample_registry sample_registry_size Hname Hfree Hext).
Defined.

Lemma sample_lookup_in_range (q : string) :
  fits_unsigned q -> (S (String.length q) < 20)%nat ->
  lookup_in_range 20 sample_registry q.
Proof.
  intros Hq Hfuel. split; [exact Hq|]. split; [exact Hfuel|].
  intros f Hin. simpl in Hin.
  destruct Hin as [<-|[<-|[<-|[]]]]; unfold fits_unsigned; simpl; lia.
Qed.

Lemma name_spec_witness :
  name 20 "PDB" sample_registry = (Ret sample_creator, sample_registry) /\
  name 20 "XTC" sample_registry =
    (Throw (FormatError
       "can not find a format named 'XTC', did you mean 'XYZ' or 'PDB'?"),
     sample_registry) /\
  name 20 "xyz" sample_registry =
    (Throw (FormatError
       "can not find a format named 'xyz', did you mean 'XYZ' or 'PDB'?"),
     sample_registry) /\
  name 20 "AmberNetCDF" sample_registry =
    (Throw (FormatError "can not find a format named 'AmberNetCDF'"), sample_registry).
Proof.
  split; [|split; [|split]].
  - destruct (proj1 (name_spec 20 sample_registry "PDB" sample_registry_size))
      as (k & f & Hk & Hf & _ & Hrun).
    + exists (sample_format "PDB" ".pdb"). split; [right; left; reflexivity | reflexivity].
    + rewrite Hrun. do 2 f_equal.
      destruct k as [|[|[|k]]]; simpl in Hk; inversion Hk; subst f;
        first [reflexivity | discriminate Hf].
  - destruct (proj2 (name_spec 20 sample_registry "XTC" sample_registry_size))
      as (Hrun & _).
    + intros f Hin. simpl in Hin. destruct Hin as [<-|[<-|[<-|[]]]]; discriminate.
    + apply sample_lookup_in_range; unfold fits_unsigned; simpl; lia.
    + rewrite Hrun. reflexivity.
  - destruct (proj2 (name_spec 20 sample_registry "xyz" sample_registry_size))
      as (Hrun & _).
    + intros f Hin. simpl in Hin. destruct Hin as [<-|[<-|[<-|[]]]]; discriminate.
    + apply sample_lookup_in_range; unfold fits_unsigned; simpl; lia.
    + rewrite Hrun. reflexivity.
  - destruct (proj2 (name_spec 20 sample_registry "AmberNetCDF" sample_registry_size))
      as (Hrun & _).
    + intros f Hin. simpl in Hin. destruct Hin as [<-|[<-|[<-|[]]]]; discriminate.
    + apply sample_lookup_in_range; unfold fits_unsigned; simpl; lia.
    + rewrite Hrun. reflexivity.
Defined.

(** C3 as stated fails on a query of [2^32 - 1] characters: no entry has that
    name, and the lookup throws no not-found error, it never comes back. *)
Lemma name_fails_on_long_name :
  (forall f, In f [sample_format "XYZ" ".xyz"] -> format_name f <> long_name) /\
  ~ (exists fuel msg,
       (name fuel long_name [sample_format "XYZ" ".xyz"]).1 = Throw (FormatError msg)).
Proof.
  assert (Habsent : forall f, In f [sample_format "XYZ" ".xyz"] ->
                              format_name f <> long_name).
  { intros f [<-|[]] Heq.
    apply (f_equal (fun s => N.of_nat (String.length s))) in Heq.
    rewrite long_name_length in Heq. discriminate Heq. }
  split; [exact Habsent|].
  intros (fuel & msg & Hrun).
  rewrite (name_out_of_range fuel (sample_format "XYZ" ".xyz") [] long_name) in Hrun.
  - discriminate Hrun.
  - exact Habsent.
  - unfold fits_unsigned. simpl. lia.
  - rewrite long_name_length. lia.
Qed.
End RegistryWitnesses.


(** * Further properties *)

(** ** Topology: the index invariant *)

Section TopologyInvariant.
Import Topology.
Context {Atom : Type} (Atom_UNDEFINED : Atom) (max_size : N).
Implicit Types (t : Topology Atom) (b : Bond) (natoms idx : N).

(** The number of atoms, as [Topology::natoms()] would give it. *)
Definition atom_count t : N := N.of_nat (length (atoms_ t)).

(** Every bond joins two atoms of the topology. *)
Definition bonds_in_range t : Prop :=
  forall b, In b (bonds t) -> (b.1 < atom_count t)%N /\ (b.2 < atom_count t)%N.

Lemma filter_not_incident idx (bs : list Bond) :
  (forall b, In b bs -> b.1 <> idx /\ b.2 <> idx) ->
  List.filter (fun b => negb (incident idx b)) bs = bs.
Proof.
  intros Hall. induction bs as [|b bs IH]; [reflexivity|]. simpl.
  destruct (Hall b (or_introl eq_refl)) as [H1 H2]. unfold incident at 1.
  apply N.eqb_neq in H1, H2. rewrite H1, H2. simpl. f_equal.
  apply IH. intros c Hc. apply Hall. right. exact Hc.
Qed.

(** X1.  [resize(natoms)] returns exactly when every bond has both indices
    below [natoms] and [natoms] is at most the [max_size()] of the atom
    vector; when it returns, the topology has [natoms] atoms, the bonds it
    had, and every bond joins two of its atoms. *)
Theorem resize_establishes_invariant natoms t :
  ((exists t', resize Atom_UNDEFINED max_size natoms t = (Ret tt, t')) <->
   (forall b, In b (bonds t) -> (b.1 < natoms)%N /\ (b.2 < natoms)%N) /\
   (natoms <= max_size)%N) /\
  (forall t', resize Atom_UNDEFINED max_size natoms t = (Ret tt, t') ->
     atom_count t' = natoms /\ bonds t' = bonds t /\ bonds_in_range t').
Proof.
  rewrite resize_unfold. split.
  - split.
    + intros [t' Hrun].
      destruct (List.find (out_of_range natoms) (bonds t)) eqn:Hfind; [discriminate Hrun|].
      destruct (N.ltb_spec max_size natoms) as [_|Hfits]; [discriminate Hrun|].
      split; [|exact Hfits]. intros b Hin.
      pose proof (find_none _ _ Hfind b Hin) as Hb. unfold out_of_range in Hb.
      apply orb_false_elim in Hb as [H1 H2]. apply N.leb_gt in H1, H2. auto.
    + intros [Hall Hfits]. rewrite (find_out_of_range_none _ _ Hall).
      destruct (N.ltb_spec max_size natoms) as [Hbig|_]; [lia | eauto].
  - intros t' Hrun.
    destruct (List.find (out_of_range natoms) (bonds t)) eqn:Hfind; [discriminate Hrun|].
    destruct (N.ltb_spec max_size natoms) as [_|_]; [discriminate Hrun|].
    injection Hrun as <-.
    assert (Hcount : atom_count (set_atoms
              (fun atoms => resized atoms natoms Atom_UNDEFINED) t) = natoms).
    { unfold atom_count. simpl. rewrite vector_resize_length. apply N2Nat.id. }
    split; [exact Hcount|]. split; [reflexivity|].
    intros b Hin. rewrite Hcount.
    pose proof (find_none _ _ Hfind b Hin) as Hb. unfold out_of_range in Hb.
    apply orb_false_elim in Hb as [H1 H2]. apply N.leb_gt in H1, H2. auto.
Qed.

(** X2.  On a topology whose bonds are in range, growing to [natoms] atoms,
    for [natoms] at most the [max_size()] of the atom vector, and then
    resizing back to the former count gives the topology back. *)
Theorem resize_grow_then_shrink natoms t :
  bonds_in_range t -> (atom_count t <= natoms)%N -> (natoms <= max_size)%N ->
  bind (resize Atom_UNDEFINED max_size natoms)
       (fun _ => resize Atom_UNDEFINED max_size (atom_count t)) t = (Ret tt, t).
Proof.
  intros Hrange Hle Hfits. unfold bind at 1. rewrite resize_unfold.
  rewrite find_out_of_range_none by (intros b Hb; destruct (Hrange b Hb); lia).
  replace (max_size <? natoms)%N with false by (symmetry; apply N.ltb_ge; exact Hfits).
  rewrite resize_unfold. unfold bonds at 1. simpl connect_.
  fold (bonds t). rewrite (find_out_of_range_none _ _ Hrange).
  replace (max_size <? atom_count t)%N with false by (symmetry; apply N.ltb_ge; lia).
  f_equal. unfold atom_count in *. destruct t as [atoms c]. unfold set_atoms. simpl in *.
  f_equal. unfold resized.
  rewrite (take_ge atoms) by lia.
  rewrite Nat2N.id, take_app_length.
  rewrite length_app, length_replicate.
  replace (length atoms - _)%nat with 0%nat by lia.
  apply app_nil_r.
Qed.

Lemma append_unfold (atom : Atom) t :
  append max_size atom t =
  if (max_size <=? atom_count t)%N then (Throw std_length_error, t)
  else (Ret tt, set_atoms (fun atoms => atoms ++ [atom]) t).
Proof.
  unfold append, bind, get, run, vector_emplace_back, atom_count.
  destruct (max_size <=? N.of_nat (length (atoms_ t)))%N; reflexivity.
Qed.

(** X3.  On a topology whose bonds are in range, [resize] to one atom more is
    [append] of the undefined atom. *)
Theorem resize_by_one_is_append t :
  bonds_in_range t ->
  resize Atom_UNDEFINED max_size (atom_count t + 1) t = append max_size Atom_UNDEFINED t.
Proof.
  intros Hrange. rewrite resize_unfold, append_unfold.
  rewrite find_out_of_range_none by (intros b Hb; destruct (Hrange b Hb); lia).
  destruct (N.ltb_spec max_size (atom_count t + 1)) as [Hfull|Hroom],
           (N.leb_spec max_size (atom_count t)) as [Hfull'|Hroom'];
    try lia; [reflexivity|].
  unfold set_atoms. do 2 f_equal.
  unfold resized, atom_count.
  rewrite take_ge by lia.
  replace (N.to_nat (N.of_nat (length (atoms_ t)) + 1) - length (atoms_ t))%nat
    with 1%nat by lia.
  reflexivity.
Qed.

(** X4.  On a topology whose bonds are in range, [append] followed by
    [remove] of the new last index gives the topology back; on a vector
    that is full [append] throws [std::length_error], and the topology is
    the one before the call as well. *)
Theorem append_then_remove_last (atom : Atom) t :
  bonds_in_range t ->
  bind (append max_size atom) (fun _ => remove (atom_count t)) t =
  (if (max_size <=? atom_count t)%N then Throw std_length_error else Ret tt, t).
Proof.
  intros Hrange. unfold bind at 1. rewrite append_unfold.
  destruct (max_size <=? atom_count t)%N; [reflexivity|].
  rewrite remove_unfold by (unfold atom_count; simpl; rewrite length_app; simpl; lia).
  f_equal. destruct t as [atoms [bs]].
  unfold bonds_in_range, atom_count, set_atoms, bonds, Connectivity_bonds in *.
  simpl in *. f_equal.
  - unfold vector_erase. rewrite Nat2N.id, take_app_length.
    rewrite drop_ge by (rewrite length_app; simpl; lia). apply app_nil_r.
  - f_equal. apply filter_not_incident. intros b Hb.
    destruct (Hrange b Hb) as [H1 H2]. lia.
Qed.

(** X5.  Removing the last atom of a topology whose bonds are in range leaves
    a topology whose bonds are in range. *)
Theorem remove_last_keeps_invariant idx t t' :
  bonds_in_range t -> (idx + 1 = atom_count t)%N ->
  remove idx t = (Ret tt, t') -> bonds_in_range t'.
Proof.
  intros Hrange Hlast Hrun.
  rewrite remove_unfold in Hrun by (unfold atom_count in Hlast; lia).
  injection Hrun as <-. intros b Hb. unfold bonds, Connectivity_bonds in Hb. simpl in Hb.
  apply filter_In in Hb as [Hin Hb]. destruct (Hrange b Hin) as [H1 H2].
  unfold incident in Hb. apply negb_true_iff, orb_false_iff in Hb as [Hb1 Hb2].
  apply N.eqb_neq in Hb1, Hb2.
  assert (Hcount : (atom_count {| atoms_ := vector_erase (atoms_ t) idx;
             connect_ := {| bonds_ := List.filter (fun b => negb (incident idx b)) (bonds t) |} |}
           = idx)%N).
  { unfold atom_count in *. simpl. unfold vector_erase.
    rewrite length_app, length_take, length_drop. lia. }
  rewrite Hcount. lia.
Qed.

(** X6.  [remove] does not renumber: when a bond that does not touch [idx]
    touches the last atom, the topology after [remove(idx)] holds that bond
    with an index that is no longer an atom, and [resize] to the new atom
    count throws. *)
Theorem remove_leaves_dangling_bond idx t b :
  (N.to_nat idx < length (atoms_ t))%nat ->
  In b (bonds t) -> b.1 <> idx -> b.2 <> idx ->
  (b.1 + 1 = atom_count t)%N \/ (b.2 + 1 = atom_count t)%N ->
  exists t' msg,
    remove idx t = (Ret tt, t') /\
    In b (bonds t') /\
    ((atom_count t' <= b.1)%N \/ (atom_count t' <= b.2)%N) /\
    resize Atom_UNDEFINED max_size (atom_count t') t' = (Throw (Error msg), t').
Proof.
  intros Hidx Hin H1 H2 Hlast. rewrite (remove_unfold idx t Hidx).
  set (t' := {| atoms_ := vector_erase (atoms_ t) idx; connect_ := _ |}).
  assert (Hcount : (atom_count t' + 1 = atom_count t)%N).
  { unfold atom_count, t', vector_erase. simpl.
    rewrite length_app, length_take, length_drop. lia. }
  assert (Hin' : In b (bonds t')).
  { unfold bonds, Connectivity_bonds, t'. simpl. apply filter_In. split; [exact Hin|].
    unfold incident. apply N.eqb_neq in H1, H2. now rewrite H1, H2. }
  assert (Hout : (atom_count t' <= b.1)%N \/ (atom_count t' <= b.2)%N) by lia.
  destruct (find_out_of_range_some (atom_count t') (bonds t')) as [c Hfind]; [eauto|].
  exists t', (resize_message (atom_count t') c).
  split; [reflexivity|]. split; [exact Hin'|]. split; [exact Hout|].
  rewrite resize_unfold, Hfind. reflexivity.
Qed.
End TopologyInvariant.


(** ** The format registry: invariant, round trips, the other lookups *)

Section RegistryInvariant.
Import FormatFactory.
Context {Format MemoryBuffer Mode Compression : Type}.
Abbreviation entry_t := (RegisteredFormat Format MemoryBuffer Mode Compression).
Implicit Types (formats extra : list entry_t) (f g entry : entry_t) (q e : string).

Lemma find_from_app_present (key : entry_t -> string) (i : N) formats extra (x : string) :
  (exists f, In f formats /\ key f = x) ->
  find_from key i (formats ++ extra) x = find_from key i formats x.
Proof.
  revert i. induction formats as [|f rest IH]; intros i (g & Hin & Hg); [destruct Hin|].
  simpl. destruct (String.eqb_spec (key f) x) as [_|Hne]; [reflexivity|].
  apply IH. destruct Hin as [->|Hin]; [contradiction | eauto].
Qed.

Lemma find_from_appended (key : entry_t -> string) (i : N) formats entry (x : string) :
  (i + N.of_nat (length formats) < SENTINEL_INDEX)%N ->
  (forall f, In f formats -> key f <> x) -> key entry = x ->
  find_from key i (formats ++ [entry]) x = (i + N.of_nat (length formats))%N.
Proof.
  revert i. induction formats as [|f rest IH]; intros i Hsize Habsent Hentry; simpl.
  - rewrite Hentry, String.eqb_refl. lia.
  - destruct (String.eqb_spec (key f) x) as [Heq|_].
    + exfalso. apply (Habsent f); [left; reflexivity | exact Heq].
    + unfold SENTINEL_INDEX in Hsize. simpl length in Hsize.
      rewrite size_t_wrap_small by lia. rewrite IH.
      * lia.
      * unfold SENTINEL_INDEX. lia.
      * intros g Hg. apply Habsent. right. exact Hg.
      * exact Hentry.
Qed.

Lemma find_by_extension_first formats e :
  vector_size_ok formats ->
  (exists f, In f formats /\ format_extension f = e) ->
  exists (k : nat) f,
    find_by_extension formats e = N.of_nat k /\
    find_by_extension formats e <> SENTINEL_INDEX /\
    formats !! k = Some f /\ format_extension f = e /\
    (forall (j : nat) g, (j < k)%nat -> formats !! j = Some g -> format_extension g <> e).
Proof.
  intros Hsize Hex. unfold vector_size_ok in Hsize.
  unfold find_by_extension. rewrite find_by_extension_from_key.
  destruct (find_from_present format_extension 0 formats e)
    as (k & f & Hfind & Hk & Hf & Hfirst); [lia | exact Hex |].
  exists k, f. rewrite Hfind, N.add_0_l.
  pose proof (lookup_lt_Some _ _ _ Hk) as Hlt.
  repeat split; auto. lia.
Qed.

Lemma extension_found formats e (k : nat) f :
  find_by_extension formats e = N.of_nat k ->
  find_by_extension formats e <> SENTINEL_INDEX ->
  formats !! k = Some f ->
  extension e formats = (Ret (creator f), formats).
Proof.
  intros Hfind Hne Hk. unfold extension, bind, get.
  apply N.eqb_neq in Hne. rewrite Hne. unfold at_.
  now rewrite Hfind, Nat2N.id, Hk.
Qed.

(** The table invariant of the registry: no empty name, no name twice, no
    extension twice unless it is empty. *)
Definition named (e : string) : bool := negb (String.eqb e "").
Definition registry_ok formats : Prop :=
  (forall f, In f formats -> format_name f <> "") /\
  List.NoDup (map format_name formats) /\
  List.NoDup (List.filter named (map format_extension formats)).

Lemma registry_ok_append formats entry :
  registry_ok formats ->
  format_name entry <> "" ->
  (forall f, In f formats -> format_name f <> format_name entry) ->
  (format_extension entry <> "" ->
   forall f, In f formats -> format_extension f <> format_extension entry) ->
  registry_ok (formats ++ [entry]).
Proof.
  intros (Hnames & Hdup & Hext) Hname Hfree Hfree_ext. split; [|split].
  - intros f Hin. apply in_app_or in Hin as [Hin|[<-|[]]]; auto.
  - rewrite map_app. simpl. apply List.NoDup_app.
    + exact Hdup.
    + constructor; [intros [] | constructor].
    + intros x Hx [<-|[]]. apply in_map_iff in Hx as (f & Heq & Hf).
      now apply (Hfree f Hf).
  - rewrite map_app, List.filter_app. simpl. unfold named at 2.
    destruct (String.eqb_spec (format_extension entry) "") as [_|Hne]; simpl.
    + now rewrite app_nil_r.
    + apply List.NoDup_app.
      * exact Hext.
      * constructor; [intros [] | constructor].
      * intros x Hx [<-|[]]. apply filter_In in Hx as [Hx _].
        apply in_map_iff in Hx as (f & Heq & Hf). now apply (Hfree_ext Hne f Hf).
Qed.

(** X7.  The empty table satisfies the invariant, and whatever the
    arguments and whether it returns or throws, [register_format] leaves a
    table that satisfies it. *)
Theorem register_format_keeps_invariant (info : FormatInfo)
    (creator : format_creator_t Format Mode Compression)
    (memory_stream : memory_stream_t Format MemoryBuffer Mode Compression) formats :
  registry_ok [] /\
  (vector_size_ok formats -> registry_ok formats ->
   registry_ok (register_format info creator memory_stream formats).2).
Proof.
  split.
  { split; [intros f []|]. split; constructor. }
  intros Hsize Hok.
  destruct (string_dec (FormatInfo.name info) "") as [Hname|Hname].
  { now rewrite register_format_no_name by exact Hname. }
  destruct (classic_name_taken formats info) as [Htaken|Hfree].
  { now rewrite register_format_name_taken by assumption. }
  destruct (classic_extension_taken formats info) as [Hext|Hext].
  { destruct (register_format_extension_taken info creator memory_stream formats
                Hsize Hname Hfree Hext) as (other & _ & _ & ->). exact Hok. }
  rewrite register_format_fresh by assumption. simpl.
  apply registry_ok_append; [exact Hok | exact Hname | |].
  - intros f Hf Heq. apply Hfree. exists f. auto.
  - intros Hne f Hf Heq. apply Hext. split; [exact Hne|]. exists f. auto.
Qed.

(** X8.  After a registration that returns, looking the new name up gives
    the creator and the in-memory creator that were registered, and looking
    the new extension up, when it is not empty, gives the creator. *)
Theorem register_then_lookup fuel (info : FormatInfo)
    (creator : format_creator_t Format Mode Compression)
    (memory_stream : memory_stream_t Format MemoryBuffer Mode Compression)
    formats formats' :
  vector_size_ok formats ->
  register_format info creator memory_stream formats = (Ret tt, formats') ->
  name fuel (FormatInfo.name info) formats' = (Ret creator, formats') /\
  FormatFactory.memory_stream fuel (FormatInfo.name info) formats' =
    (Ret memory_stream, formats') /\
  (FormatInfo.extension info <> "" ->
   extension (FormatInfo.extension info) formats' = (Ret creator, formats')).
Proof.
  intros Hsize Hrun.
  destruct (string_dec (FormatInfo.name info) "") as [Hname|Hname].
  { rewrite register_format_no_name in Hrun by exact Hname. discriminate Hrun. }
  destruct (classic_name_taken formats info) as [Htaken|Hfree].
  { rewrite register_format_name_taken in Hrun by assumption. discriminate Hrun. }
  destruct (classic_extension_taken formats info) as [Hext|Hext].
  { destruct (register_format_extension_taken info creator memory_stream formats
                Hsize Hname Hfree Hext) as (other & _ & _ & Hthrow).
    rewrite Hthrow in Hrun. discriminate Hrun. }
  rewrite register_format_fresh in Hrun by assumption. injection Hrun as <-.
  set (entry := new_entry info creator memory_stream).
  unfold vector_size_ok in Hsize.
  assert (Hlook : (formats ++ [entry]) !! length formats = Some entry).
  { rewrite lookup_app_r by lia. now rewrite Nat.sub_diag. }
  assert (Hfind : find_by_name (formats ++ [entry]) (FormatInfo.name info) =
                  N.of_nat (length formats)).
  { unfold find_by_name. rewrite find_by_name_from_key, find_from_appended; try lia.
    - intros f Hf Heq. apply Hfree. exists f. auto.
    - reflexivity. }
  destruct (name_found fuel (formats ++ [entry]) (FormatInfo.name info)
              (length formats) entry Hfind) as [Hname' Hmem']; [lia | exact Hlook |].
  split; [exact Hname'|]. split; [exact Hmem'|].
  intros Hne.
  apply (extension_found (formats ++ [entry]) _ (length formats) entry); [| |exact Hlook].
  - unfold find_by_extension. rewrite find_by_extension_from_key, find_from_appended; try lia.
    + intros f Hf Heq. apply Hext. split; [exact Hne|]. exists f. auto.
    + reflexivity.
  - unfold find_by_extension. rewrite find_by_extension_from_key, find_from_appended; try lia.
    + intros f Hf Heq. apply Hext. split; [exact Hne|]. exists f. auto.
    + reflexivity.
Qed.

(** X9.  A name that was registered keeps resolving to the same creator and
    the same in-memory creator whatever is registered afterwards, whether
    the later registration returns or throws. *)
Theorem lookup_stable_under_registration fuel (info : FormatInfo)
    (creator : format_creator_t Format Mode Compression)
    (memory_stream : memory_stream_t Format MemoryBuffer Mode Compression)
    formats q :
  vector_size_ok formats ->
  (exists f, In f formats /\ format_name f = q) ->
  let formats' := (register_format info creator memory_stream formats).2 in
  (name fuel q formats').1 = (name fuel q formats).1 /\
  (FormatFactory.memory_stream fuel q formats').1 =
    (FormatFactory.memory_stream fuel q formats).1.
Proof.
  intros Hsize Hex formats'.
  assert (Hcase : formats' = formats \/ exists entry, formats' = formats ++ [entry]).
  { unfold formats'.
    destruct (string_dec (FormatInfo.name info) "") as [Hname|Hname].
    { left. now rewrite register_format_no_name by exact Hname. }
    destruct (classic_name_taken formats info) as [Htaken|Hfree].
    { left. now rewrite register_format_name_taken by assumption. }
    destruct (classic_extension_taken formats info) as [Hext|Hext].
    { left. destruct (register_format_extension_taken info creator memory_stream formats
                        Hsize Hname Hfree Hext) as (other & _ & _ & ->). reflexivity. }
    right. rewrite register_format_fresh by assumption. eauto. }
  destruct Hcase as [->|[entry ->]]; [split; reflexivity|].
  destruct (find_by_name_first formats q Hsize Hex) as (k & f & Hfind & Hne & Hk & _).
  destruct (name_found fuel formats q k f Hfind Hne Hk) as [-> ->].
  assert (Hfind' : find_by_name (formats ++ [entry]) q = N.of_nat k).
  { unfold find_by_name in *. rewrite find_by_name_from_key in *.
    now rewrite find_from_app_present. }
  destruct (name_found fuel (formats ++ [entry]) q k f Hfind') as [-> ->].
  - rewrite Hfind'. rewrite Hfind in Hne. exact Hne.
  - rewrite lookup_app_l; [exact Hk | now apply lookup_lt_Some in Hk].
  - split; reflexivity.
Qed.

(** X10.  [extension] returns the creator of the first entry with exactly
    that extension (for the empty string: of the first entry that has no
    extension), and throws a [FormatError] that names the extension and
    suggests nothing when no entry has it. *)
Theorem extension_spec formats e :
  vector_size_ok formats ->
  ((exists f, In f formats /\ format_extension f = e) ->
   exists (k : nat) f,
     formats !! k = Some f /\ format_extension f = e /\
     (forall (j : nat) g, (j < k)%nat -> formats !! j = Some g -> format_extension g <> e) /\
     extension e formats = (Ret (creator f), formats)) /\
  ((forall f, In f formats -> format_extension f <> e) ->
   extension e formats =
   (Throw (FormatError
      ("can not find a format associated with the '" ++ e ++ "' extension")%string),
    formats)).
Proof.
  intros Hsize. split.
  - intros Hex.
    destruct (find_by_extension_first formats e Hsize Hex)
      as (k & f & Hfind & Hne & Hk & Hf & Hfirst).
    exists k, f. repeat split; auto.
    apply (extension_found formats e k f Hfind Hne Hk).
  - intros Habsent. unfold extension, bind, get, find_by_extension.
    rewrite find_by_extension_from_key, find_from_absent by exact Habsent.
    rewrite N.eqb_refl. reflexivity.
Qed.

(** X11.  [memory_stream] returns the in-memory creator of the first entry
    called [q], and otherwise, within the range of [unsigned], throws the
    not-found error that [name] throws, with the same suggestions. *)
Theorem memory_stream_spec fuel formats q :
  vector_size_ok formats ->
  ((exists f, In f formats /\ format_name f = q) ->
   exists (k : nat) f,
     formats !! k = Some f /\ format_name f = q /\
     (forall (j : nat) g, (j < k)%nat -> formats !! j = Some g -> format_name g <> q) /\
     FormatFactory.memory_stream fuel q formats = (Ret (memory_stream_creator f), formats)) /\
  ((forall f, In f formats -> format_name f <> q) ->
   lookup_in_range fuel formats q ->
   FormatFactory.memory_stream fuel q formats =
   (Throw (FormatError
      (not_found_message q (List.filter (suggested q) (map format_name formats)))),
    formats) /\
   exists err,
     (name fuel q formats).1 = Throw err /\
     (FormatFactory.memory_stream fuel q formats).1 = Throw err).
Proof.
  intros Hsize. split.
  - intros Hex.
    destruct (find_by_name_first formats q Hsize Hex)
      as (k & f & Hfind & Hne & Hk & Hf & Hfirst).
    exists k, f. repeat split; auto.
    apply (name_found fuel formats q k f Hfind Hne Hk).
  - intros Habsent Hrange.
    assert (Hrun : FormatFactory.memory_stream fuel q formats =
              (Throw (FormatError
                 (not_found_message q (List.filter (suggested q) (map format_name formats)))),
               formats)).
    { unfold FormatFactory.memory_stream, bind, get, find_by_name.
      rewrite find_by_name_from_key, find_from_absent by exact Habsent.
      rewrite N.eqb_refl. unfold pure.
      rewrite (suggest_names_message fuel formats q
                 (List.filter (suggested q) (map format_name formats))).
      - reflexivity.
      - now rewrite collect_suggestions_filter. }
    split; [exact Hrun|].
    eexists. rewrite Hrun, (name_not_found fuel formats q Habsent Hrange).
    split; reflexivity.
Qed.
End RegistryInvariant.

Section RegistryMessages.
Import FormatFactory.
Context {Format MemoryBuffer Mode Compression : Type}.
Abbreviation entry_t' := (RegisteredFormat Format MemoryBuffer Mode Compression).
Implicit Types (formats : list entry_t') (f g other : entry_t') (q : string).

(** X12.  [find_by_name] and [find_by_extension] return [SENTINEL_INDEX]
    exactly when no entry has the key, and otherwise the index, inside the
    table, of the first entry that has it. *)
Theorem find_by_key_spec formats q :
  vector_size_ok formats ->
  (find_by_name formats q = SENTINEL_INDEX <->
   forall f, In f formats -> format_name f <> q) /\
  (find_by_extension formats q = SENTINEL_INDEX <->
   forall f, In f formats -> format_extension f <> q) /\
  (find_by_name formats q <> SENTINEL_INDEX ->
   exists (k : nat) f,
     find_by_name formats q = N.of_nat k /\ (k < length formats)%nat /\
     formats !! k = Some f /\ format_name f = q /\
     forall (j : nat) g, (j < k)%nat -> formats !! j = Some g -> format_name g <> q) /\
  (find_by_extension formats q <> SENTINEL_INDEX ->
   exists (k : nat) f,
     find_by_extension formats q = N.of_nat k /\ (k < length formats)%nat /\
     formats !! k = Some f /\ format_extension f = q /\
     forall (j : nat) g, (j < k)%nat -> formats !! j = Some g -> format_extension g <> q).
Proof.
  intros Hsize.
  assert (Hkey : forall key : entry_t' -> string,
            (find_from key 0 formats q = SENTINEL_INDEX <->
             forall f, In f formats -> key f <> q) /\
            (find_from key 0 formats q <> SENTINEL_INDEX ->
             exists (k : nat) f,
               find_from key 0 formats q = N.of_nat k /\ (k < length formats)%nat /\
               formats !! k = Some f /\ key f = q /\
               forall (j : nat) g, (j < k)%nat -> formats !! j = Some g -> key g <> q)).
  { intros key.
    assert (Hdec : (exists f, In f formats /\ key f = q) \/
                   (forall f, In f formats -> key f <> q)).
    { clear Hsize. induction formats as [|f rest IH]; [right; intros f []|].
      destruct (string_dec (key f) q) as [Heq|Hne]; [left; exists f; simpl; auto|].
      destruct IH as [(g & Hin & Hg)|Hno]; [left; exists g; simpl; auto|].
      right. intros g [<-|Hin]; auto. }
    assert (Hpresent : (exists f, In f formats /\ key f = q) ->
              exists (k : nat) f,
                find_from key 0 formats q = N.of_nat k /\ (k < length formats)%nat /\
                formats !! k = Some f /\ key f = q /\
                forall (j : nat) g, (j < k)%nat -> formats !! j = Some g -> key g <> q).
    { intros Hex. unfold vector_size_ok in Hsize.
      destruct (find_from_present key 0 formats q) as (k & f & Hfind & Hk & Hf & Hfirst);
        [lia | exact Hex |].
      exists k, f. rewrite Hfind, N.add_0_l.
      repeat split; auto. now apply lookup_lt_Some in Hk. }
    split; [split|].
    - intros Hsentinel f Hin Hf.
      destruct Hpresent as (k & g & Hfind & Hlt & _); [eauto|].
      unfold vector_size_ok in Hsize. rewrite Hfind in Hsentinel. lia.
    - apply find_from_absent.
    - intros Hne. destruct Hdec as [Hex|Habsent]; [now apply Hpresent|].
      now rewrite find_from_absent in Hne. }
  unfold find_by_name, find_by_extension.
  rewrite find_by_name_from_key, find_by_extension_from_key.
  destruct (Hkey format_name) as [H1 H2], (Hkey format_extension) as [H3 H4]. auto.
Qed.

(** X13.  The checks of [register_format] come in a fixed order and each has
    its own message: the empty name first, then the name that is taken,
    then the extension that is taken, where the message names the first
    entry that holds the extension. *)
Theorem register_format_messages (info : FormatInfo)
    (creator : format_creator_t Format Mode Compression)
    (memory_stream : memory_stream_t Format MemoryBuffer Mode Compression) formats :
  vector_size_ok formats ->
  (FormatInfo.name info = "" ->
   (register_format info creator memory_stream formats).1 =
   Throw (FormatError "can not register a format with no name")) /\
  (FormatInfo.name info <> "" -> name_taken formats info ->
   (register_format info creator memory_stream formats).1 =
   Throw (FormatError ("there is already a format associated with the name '"
                       ++ FormatInfo.name info ++ "'")%string)) /\
  (FormatInfo.name info <> "" -> ~ name_taken formats info ->
   extension_taken formats info ->
   exists (k : nat) other,
     formats !! k = Some other /\
     format_extension other = FormatInfo.extension info /\
     (forall (j : nat) g, (j < k)%nat -> formats !! j = Some g ->
        format_extension g <> FormatInfo.extension info) /\
     (register_format info creator memory_stream formats).1 =
     Throw (FormatError ("the extension '" ++ FormatInfo.extension info
                         ++ "' is already associated with format '"
                         ++ format_name other ++ "'")%string)).
Proof.
  intros Hsize. split; [|split].
  - intros Hname. now rewrite register_format_no_name by exact Hname.
  - intros Hname Htaken. now rewrite register_format_name_taken by assumption.
  - intros Hname Hfree [Hext Htaken].
    destruct (find_by_extension_first formats _ Hsize Htaken)
      as (k & other & Hfind & Hne & Hk & Hother & Hfirst).
    exists k, other. split; [exact Hk|]. split; [exact Hother|]. split; [exact Hfirst|].
    unfold register_format, bind, get.
    destruct (String.eqb_spec (FormatInfo.name info) "") as [|_]; [contradiction|]. simpl.
    unfold find_by_name. rewrite find_by_name_from_key.
    rewrite find_from_absent by (intros f Hf Heq; apply Hfree; exists f; auto).
    rewrite N.eqb_refl. simpl.
    destruct (String.eqb_spec (FormatInfo.extension info) "") as [|_]; [contradiction|]. simpl.
    apply N.eqb_neq in Hne. rewrite Hne. simpl.
    unfold subscript. rewrite Hfind, Nat2N.id, Hk. reflexivity.
Qed.
End RegistryMessages.


(** ** Edit distance: zero, bounds, case *)

Section LevenshteinBounds.
Context {A K : Type} `{EqDecision K} (key : A -> K).
Implicit Types (a b : list A) (n : nat).

Lemma align_zero a b n : align key a b n -> n = 0%nat -> map key a = map key b.
Proof.
  induction 1 as [|x a b n _ IH|y a b n _ IH|x y a b n _ IH|x y a b n Hxy _ IH];
    intros Hn; try discriminate Hn.
  - reflexivity.
  - simpl. rewrite Hxy, IH by exact Hn. reflexivity.
Qed.

Lemma align_of_map a b : map key a = map key b -> align key a b 0.
Proof.
  revert b. induction a as [|x a IH]; intros [|y b] Hmap; try discriminate Hmap.
  - constructor.
  - injection Hmap as Hxy Hmap. apply align_match; [exact Hxy | now apply IH].
Qed.

Lemma levenshtein_zero_iff a b : levenshtein key a b = 0%nat <-> map key a = map key b.
Proof.
  split.
  - intros Hzero. apply (align_zero a b 0); [|reflexivity].
    rewrite <- Hzero. apply levenshtein_align.
  - intros Hmap. pose proof (levenshtein_least key _ _ _ (align_of_map a b Hmap)). lia.
Qed.

Lemma align_length a b n :
  align key a b n -> (length a <= length b + n)%nat /\ (length b <= length a + n)%nat.
Proof. induction 1; simpl; lia. Qed.

Lemma levenshtein_length_diff a b :
  (length a <= length b + levenshtein key a b)%nat /\
  (length b <= length a + levenshtein key a b)%nat.
Proof. apply align_length, levenshtein_align. Qed.

Lemma levenshtein_key_ext a a' b :
  map key a = map key a' -> levenshtein key a b = levenshtein key a' b.
Proof.
  intros Hmap.
  assert (H1 : levenshtein key a a' = 0%nat) by now apply levenshtein_zero_iff.
  assert (H2 : levenshtein key a' a = 0%nat) by now apply levenshtein_zero_iff.
  pose proof (levenshtein_triangle key a a' b).
  pose proof (levenshtein_triangle key a' a b). lia.
Qed.
End LevenshteinBounds.

Section EditDistanceExtras.
Import FormatFactory.
Implicit Types (a b s : string).

(** Two strings that differ by the case of their letters only. *)
Definition same_up_to_case a b : Prop :=
  map tolower (list_ascii_of_string a) = map tolower (list_ascii_of_string b).

Lemma same_up_to_case_length a b :
  same_up_to_case a b -> String.length a = String.length b.
Proof.
  intros Hsame. apply (f_equal (@length ascii)) in Hsame.
  now rewrite !length_map, !length_list_ascii in Hsame.
Qed.

(** X14.  Within the range of [unsigned], [edit_distance] returns 0 exactly
    on two strings that differ by the case of their letters only. *)
Theorem edit_distance_zero_iff fuel a b :
  fits_unsigned a -> fits_unsigned b ->
  (S (String.length a) < fuel)%nat -> (S (String.length b) < fuel)%nat ->
  (edit_distance fuel a b = Ret 0%N <-> same_up_to_case a b).
Proof.
  intros Ha Hb Hfa Hfb. rewrite edit_distance_levenshtein by assumption.
  unfold same_up_to_case. rewrite <- (levenshtein_zero_iff tolower). split.
  - intros Hret. injection Hret as Hret. lia.
  - intros ->. reflexivity.
Qed.

(** X15.  Within the range of [unsigned], the distance that [edit_distance]
    returns is at least the difference of the two lengths and at most the
    longer of them. *)
Theorem edit_distance_bounds fuel a b :
  fits_unsigned a -> fits_unsigned b ->
  (S (String.length a) < fuel)%nat -> (S (String.length b) < fuel)%nat ->
  exists v,
    edit_distance fuel a b = Ret v /\
    (v <= N.max (N.of_nat (String.length a)) (N.of_nat (String.length b)))%N /\
    (N.of_nat (String.length a) <= N.of_nat (String.length b) + v)%N /\
    (N.of_nat (String.length b) <= N.of_nat (String.length a) + v)%N.
Proof.
  intros Ha Hb Hfa Hfb. rewrite edit_distance_levenshtein by assumption.
  eexists. split; [reflexivity|].
  pose proof (levenshtein_le_max tolower (list_ascii_of_string a) (list_ascii_of_string b)).
  pose proof (levenshtein_length_diff tolower (list_ascii_of_string a)
                (list_ascii_of_string b)) as [? ?].
  rewrite !length_list_ascii in *. lia.
Qed.

(** X16.  Within the range of [unsigned], changing the case of letters in
    either argument does not change what [edit_distance] returns. *)
Theorem edit_distance_ignores_case fuel a a' b :
  same_up_to_case a a' ->
  fits_unsigned a -> fits_unsigned b ->
  (S (String.length a) < fuel)%nat -> (S (String.length b) < fuel)%nat ->
  edit_distance fuel a b = edit_distance fuel a' b /\
  edit_distance fuel b a = edit_distance fuel b a'.
Proof.
  intros Hsame Ha Hb Hfa Hfb.
  pose proof (same_up_to_case_length a a' Hsame) as Hlen.
  assert (Ha' : fits_unsigned a') by (unfold fits_unsigned in *; lia).
  rewrite !edit_distance_levenshtein by (assumption || lia).
  rewrite (levenshtein_sym tolower (list_ascii_of_string b) (list_ascii_of_string a)).
  rewrite (levenshtein_sym tolower (list_ascii_of_string b) (list_ascii_of_string a')).
  now rewrite (levenshtein_key_ext tolower _ _ _ Hsame).
Qed.

(** X17.  When the length plus one of either argument does not fit an
    [unsigned], [edit_distance] returns nothing, whatever the fuel: the
    counter of its first or second loop wraps before it reaches the
    bound. *)
Theorem edit_distance_beyond_unsigned fuel a b :
  (N.of_nat (String.length a) + 1 < 18446744073709551616)%N ->
  (N.of_nat (String.length b) + 1 < 18446744073709551616)%N ->
  ~ fits_unsigned a \/ ~ fits_unsigned b ->
  edit_distance fuel a b = Diverge /\ forall v, edit_distance fuel a b <> Ret v.
Proof.
  intros Ha Hb Hbig.
  assert (Hrun : edit_distance fuel a b = Diverge).
  { apply edit_distance_out_of_range; [exact Ha | exact Hb |].
    unfold fits_unsigned in Hbig. lia. }
  split; [exact Hrun|]. intros v. rewrite Hrun. discriminate.
Qed.
End EditDistanceExtras.

Section SuggestionExtras.
Import FormatFactory.
Context {Format MemoryBuffer Mode Compression : Type}.
Abbreviation entry_s := (RegisteredFormat Format MemoryBuffer Mode Compression).
Implicit Types (formats : list entry_s) (f g : entry_s) (q : string).

(** X18.  In the not-found error of [name], within the range of [unsigned]:
    a registered name that differs from the query by case only is always
    suggested; when the query and a registered name have at most three
    characters each the name is always suggested; a registered name whose
    length differs from the length of the query by four or more is never
    suggested. *)
Theorem suggestions_by_case_and_length fuel formats q f :
  (forall g, In g formats -> format_name g <> q) ->
  lookup_in_range fuel formats q ->
  In f formats ->
  let suggestions := List.filter (suggested q) (map format_name formats) in
  name fuel q formats =
    (Throw (FormatError (not_found_message q suggestions)), formats) /\
  (same_up_to_case q (format_name f) -> In (format_name f) suggestions) /\
  ((String.length q <= 3)%nat -> (String.length (format_name f) <= 3)%nat ->
   In (format_name f) suggestions) /\
  ((String.length q + 4 <= String.length (format_name f))%nat \/
   (String.length (format_name f) + 4 <= String.length q)%nat ->
   ~ In (format_name f) suggestions).
Proof.
  intros Habsent Hrange Hin suggestions.
  split; [now apply name_not_found|].
  assert (Hmem : forall candidate, In candidate suggestions <->
            In candidate (map format_name formats) /\ (distance q candidate < 4)%nat).
  { intros candidate. unfold suggestions, suggested.
    now rewrite filter_In, Nat.ltb_lt. }
  assert (Hf : In (format_name f) (map format_name formats)) by now apply in_map.
  pose proof (levenshtein_le_max tolower (list_ascii_of_string q)
                (list_ascii_of_string (format_name f))) as Hmax.
  pose proof (levenshtein_length_diff tolower (list_ascii_of_string q)
                (list_ascii_of_string (format_name f))) as [Hd1 Hd2].
  rewrite !length_list_ascii in *. fold (distance q (format_name f)) in *.
  split; [|split].
  - intros Hsame. apply Hmem. split; [exact Hf|].
    apply (levenshtein_zero_iff tolower) in Hsame. unfold distance. lia.
  - intros Hq Hname. apply Hmem. split; [exact Hf | lia].
  - intros Hfar Hsuggested. apply Hmem in Hsuggested as [_ Hlt]. lia.
Qed.

(** X21.  No lookup changes the table: whatever they return or throw, and
    whatever the fuel, [name], [memory_stream], [extension] and [formats]
    leave the registry as it was; [formats] always returns, with one
    [FormatInfo] per entry, in the order of the table. *)
Theorem lookups_leave_registry fuel formats q :
  (name fuel q formats).2 = formats /\
  (FormatFactory.memory_stream fuel q formats).2 = formats /\
  (extension q formats).2 = formats /\
  FormatFactory.formats formats = (Ret (map info formats), formats).
Proof.
  unfold name, FormatFactory.memory_stream, extension, FormatFactory.formats,
    bind, get, pure, at_, throw, ret.
  repeat split.
  - destruct (find_by_name formats q =? SENTINEL_INDEX)%N.
    + destruct (suggest_names fuel formats q); reflexivity.
    + destruct (formats !! N.to_nat (find_by_name formats q)); reflexivity.
  - destruct (find_by_name formats q =? SENTINEL_INDEX)%N.
    + destruct (suggest_names fuel formats q); reflexivity.
    + destruct (formats !! N.to_nat (find_by_name formats q)); reflexivity.
  - destruct (find_by_extension formats q =? SENTINEL_INDEX)%N; [reflexivity|].
    destruct (formats !! N.to_nat (find_by_extension formats q)); reflexivity.
Qed.
End SuggestionExtras.

(** ** The TRR file adapter: what the constructor hands out *)

Section TRRFileExtras.
Import TRRFile.
Context (code : exdr -> Z) (exdr_message : Z -> string) {XDRFILE : Type}.
Context (read_trr_header : string -> header -> Z * header).
Context (xdrfile_open : string -> string -> option XDRFILE).

(** The mode string that the constructor passes to [xdrfile_open]. *)
Definition openmode_of (mode : Mode) : string :=
  match mode with READ => "r" | WRITE => "w" | APPEND => "a" end.

(** X19.  Whatever the codec answers, the constructor either returns a file
    that holds a handle (never the null handle), the path and the mode it
    was given, and the header members ([natoms()], [nframes()] and the
    offsets are those the header read wrote, or the initial ones in write
    mode), or throws a [FileError]. *)
Theorem constructor_outcomes (path : string) (mode : Mode) (init : header) :
  (exists (f : TRRFile (XDRFILE := XDRFILE)) handle,
     TRRFile_new code exdr_message read_trr_header xdrfile_open path mode init = Ret f /\
     xdrfile_open path (openmode_of mode) = Some handle /\
     handle_ f = Some handle /\
     TRRFile.path f = path /\ TRRFile.mode f = mode /\
     members f = (match mode with
                  | WRITE => init
                  | _ => (read_trr_header path init).2
                  end) /\
     natoms f = natoms_ (members f) /\ nframes f = nframes_ (members f) /\
     (forall step, offset f step = offsets_ (members f) !! N.to_nat step)) \/
  (exists msg,
     TRRFile_new code exdr_message read_trr_header xdrfile_open path mode init =
     Throw (FileError msg)).
Proof.
  unfold TRRFile_new. destruct mode; simpl.
  - destruct (read_trr_header path init) as [status hdr]. simpl.
    unfold check_trr_error.
    destruct (existsb _ error_labels); simpl;
      [right; unfold file_error_calling; eauto|].
    destruct (status =? code exdrOK)%Z; simpl;
      [|right; unfold file_error_unknown; eauto].
    destruct (xdrfile_open path "r") as [handle|];
      [left; eexists; exists handle; repeat split
      | right; unfold file_error_open; eauto].
  - destruct (xdrfile_open path "w") as [handle|];
      [left; eexists; exists handle; repeat split
      | right; unfold file_error_open; eauto].
  - destruct (read_trr_header path init) as [status hdr]. simpl.
    destruct (xdrfile_open path "a") as [handle|];
      [left; eexists; exists handle; repeat split
      | right; unfold file_error_open; eauto].
Qed.

(** X20.  With distinct status codes, the constructor returns in read mode
    exactly when the header read reports [exdrOK] and the open gives a
    handle, and in write and append mode exactly when the open gives a
    handle, whatever the header read reports. *)
Theorem constructor_returns_iff (path : string) (init : header) :
  (forall a b, code a = code b -> a = b) ->
  ((exists f, TRRFile_new code exdr_message read_trr_header xdrfile_open
                path READ init = Ret f) <->
   (read_trr_header path init).1 = code exdrOK /\ xdrfile_open path "r" <> None) /\
  ((exists f, TRRFile_new code exdr_message read_trr_header xdrfile_open
                path WRITE init = Ret f) <->
   xdrfile_open path "w" <> None) /\
  ((exists f, TRRFile_new code exdr_message read_trr_header xdrfile_open
                path APPEND init = Ret f) <->
   xdrfile_open path "a" <> None).
Proof.
  intros Hdistinct. split; [|split].
  - rewrite TRRFile_new_read. split.
    + intros [f Hrun].
      destruct (Z.eq_dec (read_trr_header path init).1 (code exdrOK)) as [Hok|Hbad].
      * split; [exact Hok|]. rewrite Hok, (check_trr_error_ok _ _ Hdistinct) in Hrun.
        simpl in Hrun. unfold open_with in Hrun. intros Hnull. rewrite Hnull in Hrun.
        discriminate Hrun.
      * destruct (check_trr_error_not_ok code exdr_message _ read_trr_header_call Hbad)
          as [msg Hthrow].
        rewrite Hthrow in Hrun. discriminate Hrun.
    + intros [Hok Hopen]. rewrite Hok, (check_trr_error_ok _ _ Hdistinct). simpl.
      unfold open_with. destruct (xdrfile_open path "r"); [eauto | contradiction].
  - rewrite TRRFile_new_write. unfold open_with.
    destruct (xdrfile_open path "w"); split; eauto; try discriminate.
    + intros [f Hrun]. discriminate Hrun.
    + intros Hnull. contradiction.
  - rewrite TRRFile_new_append. unfold open_with.
    destruct (xdrfile_open path "a"); split; eauto; try discriminate.
    + intros [f Hrun]. discriminate Hrun.
    + intros Hnull. contradiction.
Qed.
End TRRFileExtras.


(** ** Instances *)

Section ExtraWitnesses.
Import Topology FormatFactory.

Lemma chain3_in_range : bonds_in_range chain3.
Proof. intros b [<-|[<-|[]]]; unfold atom_count; simpl; lia. Qed.

Lemma resize_establishes_invariant_witness :
  let t' := {| atoms_ := ["C"; "O"; "H"; ""]; connect_ := connect_ chain3 |} in
  atom_count t' = 4%N /\ bonds t' = bonds chain3 /\ bonds_in_range t'.
Proof.
  apply (proj2 (resize_establishes_invariant "" sample_max_size 4 chain3)). reflexivity.
Defined.

Lemma resize_grow_then_shrink_witness :
  bind (resize "" sample_max_size 7)
       (fun _ => resize "" sample_max_size (atom_count chain3)) chain3 = (Ret tt, chain3).
Proof.
  apply (resize_grow_then_shrink "" sample_max_size 7 chain3 chain3_in_range).
  - unfold atom_count. simpl. lia.
  - unfold sample_max_size. simpl. lia.
Defined.

Lemma resize_by_one_is_append_witness :
  resize "" sample_max_size (atom_count chain3 + 1) chain3 =
  append sample_max_size "" chain3.
Proof. exact (resize_by_one_is_append "" sample_max_size chain3 chain3_in_range). Defined.

Lemma append_then_remove_last_witness :
  bind (append sample_max_size "N") (fun _ => remove (atom_count chain3)) chain3 =
  (Ret tt, chain3).
Proof. exact (append_then_remove_last sample_max_size "N" chain3 chain3_in_range). Defined.

Lemma remove_last_keeps_invariant_witness :
  bonds_in_range {| atoms_ := ["C"; "O"];
                    connect_ := {| bonds_ := [(0, 1)%N] |} |}.
Proof.
  apply (remove_last_keeps_invariant 2 chain3 _ chain3_in_range); reflexivity.
Defined.

Lemma remove_leaves_dangling_bond_witness :
  exists t' msg,
    remove 0 chain3 = (Ret tt, t') /\
    In (1, 2)%N (bonds t') /\
    ((atom_count t' <= 1)%N \/ (atom_count t' <= 2)%N) /\
    resize "" sample_max_size (atom_count t') t' = (Throw (Error msg), t').
Proof.
  apply (remove_leaves_dangling_bond "" sample_max_size 0 chain3 (1, 2)%N).
  - simpl. lia.
  - right; left; reflexivity.
  - discriminate.
  - discriminate.
  - right. reflexivity.
Defined.

Lemma sample_registry_ok : registry_ok sample_registry.
Proof.
  split; [|split].
  - intros f Hin. simpl in Hin. destruct Hin as [<-|[<-|[<-|[]]]]; discriminate.
  - simpl. repeat constructor; simpl; intuition discriminate.
  - simpl. repeat constructor; simpl; intuition discriminate.
Qed.

Lemma register_format_keeps_invariant_witness :
  registry_ok (register_format (sample_info "GRO" ".gro") sample_creator
                 (fun _ _ _ => Ret tt) sample_registry).2.
Proof.
  exact (proj2 (register_format_keeps_invariant (sample_info "GRO" ".gro") sample_creator
                  (fun _ _ _ => Ret tt) sample_registry)
           sample_registry_size sample_registry_ok).
Defined.

Lemma register_then_lookup_witness :
  let formats' := sample_registry ++ [sample_format "GRO" ".gro"] in
  name 0 "GRO" formats' = (Ret sample_creator, formats') /\
  FormatFactory.memory_stream 0 "GRO" formats' = (Ret (fun _ _ _ => Ret tt), formats') /\
  (".gro" <> "" -> extension ".gro" formats' = (Ret sample_creator, formats')).
Proof.
  apply (register_then_lookup 0 (sample_info "GRO" ".gro") sample_creator
           (fun _ _ _ => Ret tt) sample_registry _ sample_registry_size).
  reflexivity.
Defined.

Lemma lookup_stable_under_registration_witness :
  let formats' := (register_format (sample_info "GRO" ".gro") sample_creator
                     (fun _ _ _ => Ret tt) sample_registry).2 in
  (name 0 "PDB" formats').1 = (name 0 "PDB" sample_registry).1 /\
  (FormatFactory.memory_stream 0 "PDB" formats').1 =
    (FormatFactory.memory_stream 0 "PDB" sample_registry).1.
Proof.
  apply (lookup_stable_under_registration 0 (sample_info "GRO" ".gro") sample_creator
           (fun _ _ _ => Ret tt) sample_registry "PDB" sample_registry_size).
  exists (sample_format "PDB" ".pdb"). split; [right; left; reflexivity | reflexivity].
Defined.

Lemma extension_spec_witness :
  (exists (k : nat) f,
     sample_registry !! k = Some f /\ format_extension f = "" /\
     (forall (j : nat) g, (j < k)%nat -> sample_registry !! j = Some g ->
        format_extension g <> "") /\
     extension "" sample_registry = (Ret (creator f), sample_registry)) /\
  extension ".zip" sample_registry =
    (Throw (FormatError "can not find a format associated with the '.zip' extension"),
     sample_registry).
Proof.
  split.
  - apply (proj1 (extension_spec sample_registry "" sample_registry_size)).
    exists (sample_format "Tinker" "").
    split; [right; right; left; reflexivity | reflexivity].
  - apply (proj2 (extension_spec sample_registry ".zip" sample_registry_size)).
    intros f Hin. simpl in Hin. destruct Hin as [<-|[<-|[<-|[]]]]; discriminate.
Defined.

Lemma memory_stream_spec_witness :
  FormatFactory.memory_stream 20 "XTC" sample_registry =
    (Throw (FormatError
       (not_found_message "XTC"
          (List.filter (suggested "XTC") (map format_name sample_registry)))),
     sample_registry) /\
  exists err,
    (name 20 "XTC" sample_registry).1 = Throw err /\
    (FormatFactory.memory_stream 20 "XTC" sample_registry).1 = Throw err.
Proof.
  apply (proj2 (memory_stream_spec 20 sample_registry "XTC" sample_registry_size)).
  - intros f Hin. simpl in Hin. destruct Hin as [<-|[<-|[<-|[]]]]; discriminate.
  - apply sample_lookup_in_range; unfold fits_unsigned; simpl; lia.
Defined.

Lemma find_by_key_spec_witness :
  exists (k : nat) f,
    find_by_name sample_registry "PDB" = N.of_nat k /\ (k < length sample_registry)%nat /\
    sample_registry !! k = Some f /\ format_name f = "PDB" /\
    forall (j : nat) g, (j < k)%nat -> sample_registry !! j = Some g ->
      format_name g <> "PDB".
Proof.
  destruct (find_by_key_spec sample_registry "PDB" sample_registry_size)
    as (_ & _ & Hfound & _).
  apply Hfound. discriminate.
Defined.

Lemma register_format_messages_witness :
  (register_format (sample_info "" ".pdb") sample_creator (fun _ _ _ => Ret tt)
     sample_registry).1 =
    Throw (FormatError "can not register a format with no name") /\
  (register_format (sample_info "PDB" ".xyz") sample_creator (fun _ _ _ => Ret tt)
     sample_registry).1 =
    Throw (FormatError "there is already a format associated with the name 'PDB'").
Proof.
  split.
  - apply (proj1 (register_format_messages (sample_info "" ".pdb") sample_creator
                    (fun _ _ _ => Ret tt) sample_registry sample_registry_size)).
    reflexivity.
  - apply (proj1 (proj2 (register_format_messages (sample_info "PDB" ".xyz") sample_creator
                    (fun _ _ _ => Ret tt) sample_registry sample_registry_size))).
    + discriminate.
    + exists (sample_format "PDB" ".pdb"). split; [right; left; reflexivity | reflexivity].
Defined.

Lemma edit_distance_zero_iff_witness :
  edit_distance 9 "Tinker" "TINKER" = Ret 0%N <-> same_up_to_case "Tinker" "TINKER".
Proof. apply edit_distance_zero_iff; unfold fits_unsigned; simpl; lia. Defined.

Lemma edit_distance_bounds_witness :
  exists v,
    edit_distance 9 "XYZ" "Tinker" = Ret v /\
    (v <= N.max 3 6)%N /\ (3 <= 6 + v)%N /\ (6 <= 3 + v)%N.
Proof. apply (edit_distance_bounds 9 "XYZ" "Tinker"); unfold fits_unsigned; simpl; lia. Defined.

Lemma edit_distance_ignores_case_witness :
  edit_distance 9 "pdb" "SDF" = edit_distance 9 "PDB" "SDF" /\
  edit_distance 9 "SDF" "pdb" = edit_distance 9 "SDF" "PDB".
Proof.
  apply (edit_distance_ignores_case 9 "pdb" "PDB" "SDF");
    first [reflexivity | unfold fits_unsigned; simpl; lia].
Defined.

Lemma edit_distance_beyond_unsigned_witness :
  edit_distance 9 "XYZ" long_name = Diverge /\
  forall v, edit_distance 9 "XYZ" long_name <> Ret v.
Proof.
  apply (edit_distance_beyond_unsigned 9 "XYZ" long_name).
  - simpl. lia.
  - rewrite long_name_length. lia.
  - right. unfold fits_unsigned. rewrite long_name_length. lia.
Defined.

Lemma suggestions_by_case_and_length_witness :
  let suggestions := List.filter (suggested "tinker") (map format_name sample_registry) in
  name 20 "tinker" sample_registry =
    (Throw (FormatError (not_found_message "tinker" suggestions)), sample_registry) /\
  (same_up_to_case "tinker" "Tinker" -> In "Tinker" suggestions) /\
  ((6 <= 3)%nat -> (6 <= 3)%nat -> In "Tinker" suggestions) /\
  ((6 + 4 <= 6)%nat \/ (6 + 4 <= 6)%nat -> ~ In "Tinker" suggestions).
Proof.
  apply (suggestions_by_case_and_length 20 sample_registry "tinker"
           (sample_format "Tinker" "")).
  - intros f Hin. simpl in Hin. destruct Hin as [<-|[<-|[<-|[]]]]; discriminate.
  - apply sample_lookup_in_range; unfold fits_unsigned; simpl; lia.
  - right; right; left; reflexivity.
Defined.

Lemma constructor_returns_iff_witness :
  (exists f, TRRFile.TRRFile_new sample_code sample_message header_missing open_always
               "new.trr" TRRFile.APPEND no_header = Ret f) <->
  open_always "new.trr" "a" <> None.
Proof.
  exact (proj2 (proj2 (constructor_returns_iff sample_code sample_message header_missing
                         open_always "new.trr" no_header sample_code_distinct))).
Defined.
End ExtraWitnesses.
